(** * Rialcom tariff parser: a shallow embedding of [app/parser_rialcom.py]

    The development follows the Python module top to bottom:

    - [Text]: Python [str] values as sequences of Unicode code points, with
      the pieces of the [str] API the parser calls ([strip], [split],
      [join], [int(...)], [str(int)]);
    - [Re]: the fragment of the [re] module the parser's three patterns
      need, as a backtracking matcher that lists matches in the order the
      engine tries them;
    - [FloatDiv]: [int(n / 1000)], i.e. true division to a binary64 float
      followed by truncation;
    - [Py]: the exception-and-state monad of the method bodies;
    - [Rialcom]: the classes [ParserRialcom] and [DataRialcom];
    - [Spec]: the notions the specification speaks of (records, digit
      runs, tokens, malformed cells), stated without the code;
    - [Samples]: small pages to run the parser on;
    - the properties: strings, the matcher, the division, loops, rows,
      tables, errors, and last the claims of the specification, each with
      the inputs that witness or refute it. *)

From Stdlib Require Import ZArith String Ascii List Lia Bool.
From Stdlib Require Import Numbers.DecimalString Numbers.DecimalZ.
From stdpp Require Import base option list gmap.

Open Scope Z_scope.

(** ** Python strings *)

Module Text.

(** A character is a Unicode code point; a [str] is a list of them. *)
Definition char := Z.
Definition text := list char.

(** Source literals are written as UTF-8 string literals and decoded. *)
Definition byte_of (a : ascii) : Z := Z.of_nat (nat_of_ascii a).

Fixpoint bytes_of (s : string) : list Z :=
  match s with
  | EmptyString => []
  | String a s' => byte_of a :: bytes_of s'
  end.

Definition cont (b : Z) : Z := Z.land b 63.

Fixpoint utf8_decode (bs : list Z) : text :=
  match bs with
  | [] => []
  | b0 :: r0 =>
    if b0 <? 128 then b0 :: utf8_decode r0
    else match r0 with
    | [] => []
    | b1 :: r1 =>
      if b0 <? 224 then
        (Z.shiftl (Z.land b0 31) 6 + cont b1) :: utf8_decode r1
      else match r1 with
      | [] => []
      | b2 :: r2 =>
        if b0 <? 240 then
          (Z.shiftl (Z.land b0 15) 12 + Z.shiftl (cont b1) 6 + cont b2)
            :: utf8_decode r2
        else match r2 with
        | [] => []
        | b3 :: r3 =>
          (Z.shiftl (Z.land b0 7) 18 + Z.shiftl (cont b1) 12
             + Z.shiftl (cont b2) 6 + cont b3) :: utf8_decode r3
        end
      end
    end
  end.

Definition u (s : string) : text := utf8_decode (bytes_of s).

(** [Py_UNICODE_ISSPACE]: the code points [str.isspace], [str.strip],
    [str.split] and the pattern [\s] treat as whitespace. *)
Definition is_space (c : char) : bool :=
  ((9 <=? c) && (c <=? 13)) || ((28 <=? c) && (c <=? 32))
  || (c =? 133) || (c =? 160) || (c =? 5760)
  || ((8192 <=? c) && (c <=? 8202))
  || (c =? 8232) || (c =? 8233) || (c =? 8239) || (c =? 8287)
  || (c =? 12288).

(** [Py_UNICODE_TODECIMAL]: code points of general category Nd come in
    blocks of ten consecutive digits 0..9; this is the list of the code
    points of the zeros (Unicode 15.0). [\d] and [int(...)] accept exactly
    these. *)
Definition decimal_zeros : list Z :=
  [ 0x30; 0x660; 0x6f0; 0x7c0; 0x966; 0x9e6; 0xa66; 0xae6; 0xb66; 0xbe6;
    0xc66; 0xce6; 0xd66; 0xde6; 0xe50; 0xed0; 0xf20; 0x1040; 0x1090; 0x17e0;
    0x1810; 0x1946; 0x19d0; 0x1a80; 0x1a90; 0x1b50; 0x1bb0; 0x1c40; 0x1c50;
    0xa620; 0xa8d0; 0xa900; 0xa9d0; 0xa9f0; 0xaa50; 0xabf0; 0xff10; 0x104a0;
    0x10d30; 0x11066; 0x110f0; 0x11136; 0x111d0; 0x112f0; 0x11450; 0x114d0;
    0x11650; 0x116c0; 0x11730; 0x118e0; 0x11950; 0x11c50; 0x11d50; 0x11da0;
    0x11f50; 0x16a60; 0x16ac0; 0x16b50; 0x1d7ce; 0x1d7d8; 0x1d7e2; 0x1d7ec;
    0x1d7f6; 0x1e140; 0x1e2f0; 0x1e4f0; 0x1e950; 0x1fbf0 ].

Fixpoint decimal_in (zs : list Z) (c : char) : option Z :=
  match zs with
  | [] => None
  | z :: zs' => if (z <=? c) && (c <? z + 10) then Some (c - z)
                else decimal_in zs' c
  end.

Definition decimal_value (c : char) : option Z := decimal_in decimal_zeros c.

Definition is_digit (c : char) : bool :=
  match decimal_value c with Some _ => true | None => false end.

Fixpoint drop_while (p : char -> bool) (s : text) : text :=
  match s with
  | c :: s' => if p c then drop_while p s' else s
  | [] => []
  end.

(** [str.strip()] *)
Definition lstrip (s : text) : text := drop_while is_space s.

Definition rstrip (s : text) : text := rev (lstrip (rev s)).

Definition strip (s : text) : text := rstrip (lstrip s).

(** [str.split()] with no separator: the maximal runs of non-whitespace. *)
Fixpoint span (p : char -> bool) (s : text) : text * text :=
  match s with
  | c :: s' => if p c then let '(a, b) := span p s' in (c :: a, b)
               else ([], s)
  | [] => ([], [])
  end.

Fixpoint split_fuel (n : nat) (s : text) : list text :=
  match n with
  | O => []
  | S n' =>
    match lstrip s with
    | [] => []
    | s1 => let '(tok, rest) := span (fun c => negb (is_space c)) s1 in
            tok :: split_fuel n' rest
    end
  end.

Definition split (s : text) : list text := split_fuel (S (length s)) s.

(** [sep.join(parts)] *)
Fixpoint join (sep : text) (parts : list text) : text :=
  match parts with
  | [] => []
  | [p] => p
  | p :: ps => p ++ sep ++ join sep ps
  end.

(** [str(n)] for an [int]: ASCII decimal digits, a minus sign if negative. *)
Definition str_of_int (n : Z) : text :=
  bytes_of (NilEmpty.string_of_int (Z.to_int n)).

(** [int(s)] for a [str], base 10. Whitespace around the literal is
    skipped, but not quite the whitespace of [strip]: ASCII characters
    are judged by C's [isspace], so the separators U+001C..U+001F do not
    count. The literal may carry one sign, and consists of decimal digits
    with single underscores between digits; anything else is an invalid
    literal. [sys.int_info.default_max_str_digits] bounds the number of
    digits. *)
Definition is_int_space (c : char) : bool :=
  if c <? 127 then ((9 <=? c) && (c <=? 13)) || (c =? 32) else is_space c.

Definition int_trim (s : text) : text :=
  rev (drop_while is_int_space (rev (drop_while is_int_space s))).

Definition int_max_str_digits : nat := 4300.

Inductive int_parse :=
| Parsed (n : Z)
| Invalid                  (* invalid literal for int() with base 10 *)
| TooLong (digits : nat).  (* Exceeds the limit (4300 digits) *)

(** The digits-and-underscores body, scanned left to right:
    [prev_digit] tells whether the previous character was a digit (an
    underscore is legal only right after one and must be followed by one);
    [acc] is the value so far and [nd] the number of digits. *)
Fixpoint int_body (s : text) (prev_digit : bool) (acc : Z) (nd : nat)
  : option (Z * nat) :=
  match s with
  | [] => if prev_digit then Some (acc, nd) else None
  | c :: s' =>
    match decimal_value c with
    | Some d => int_body s' true (10 * acc + d) (S nd)
    | None =>
      if (c =? 95) && prev_digit then int_body s' false acc nd else None
    end
  end.

Definition int_of_str (s : text) : int_parse :=
  let s1 := int_trim s in
  let '(neg, s2) :=
    match s1 with
    | c :: r => if c =? 45 then (true, r)
                else if c =? 43 then (false, r) else (false, s1)
    | [] => (false, s1)
    end in
  match int_body s2 false 0 0 with
  | Some (v, nd) =>
    if (nd <=? int_max_str_digits)%nat then Parsed (if neg then - v else v)
    else TooLong nd
  | None => Invalid
  end.

End Text.

Import Text.

(** ** The [re] module, as far as the parser uses it *)

Module Re.

(** The three patterns of the parser, ["тариф"] / ["Интернет"], [\d+] and
    [(?P<name>[\s\S]*?)\s*\((?P<num>\d+)[\s\S]*\)], are built from literal
    characters, character classes, greedy and lazy repetition of a class,
    named groups and concatenation. *)
Inductive regex :=
| Lit (c : char)
| Class (p : char -> bool)
| Star (p : char -> bool)        (* [p*], greedy *)
| LazyStar (p : char -> bool)    (* [p*?] *)
| Group (name : string) (r : regex)
| Seq (r1 r2 : regex).

Definition Plus (p : char -> bool) : regex := Seq (Class p) (Star p).

Definition groups := list (string * text).

(** The ends a repetition can stop at, in the order the backtracking
    engine tries them: longest first when greedy, shortest first when
    lazy. Each end is given as the text that remains. *)
Fixpoint star_ends (p : char -> bool) (s : text) : list text :=
  match s with
  | c :: s' => if p c then star_ends p s' ++ [s] else [s]
  | [] => [[]]
  end.

Fixpoint lazy_ends (p : char -> bool) (s : text) : list text :=
  match s with
  | c :: s' => if p c then s :: lazy_ends p s' else [s]
  | [] => [[]]
  end.

(** [matches r s g]: every way [r] matches a prefix of [s], as the pair of
    the remaining text and the groups set so far, in the engine's order of
    preference. *)
Fixpoint matches (r : regex) (s : text) (g : groups) : list (text * groups) :=
  match r with
  | Lit c =>
    match s with
    | x :: s' => if x =? c then [(s', g)] else []
    | [] => []
    end
  | Class p =>
    match s with
    | x :: s' => if p x then [(s', g)] else []
    | [] => []
    end
  | Star p => map (fun s' => (s', g)) (star_ends p s)
  | LazyStar p => map (fun s' => (s', g)) (lazy_ends p s)
  | Group name r1 =>
    map (fun '(s', g') =>
           (s', (name, take (length s - length s') s) :: g'))
        (matches r1 s g)
  | Seq r1 r2 =>
    flat_map (fun '(s', g') => matches r2 s' g') (matches r1 s g)
  end.

(** A match object: where it starts, [group()] and [groupdict()]. *)
Record match_obj := {
  m_start : nat;
  m_group : text;
  m_groupdict : groups
}.

(** [re.search]: the first match at the leftmost position that has one. *)
Fixpoint search_from (r : regex) (pos : nat) (s : text) : option match_obj :=
  match matches r s [] with
  | (rest, g) :: _ =>
    Some {| m_start := pos;
            m_group := take (length s - length rest) s;
            m_groupdict := g |}
  | [] =>
    match s with
    | [] => None
    | _ :: s' => search_from r (S pos) s'
    end
  end.

Definition search (r : regex) (s : text) : option match_obj :=
  search_from r 0 s.

Fixpoint literal_from (c : char) (cs : text) : regex :=
  match cs with
  | [] => Lit c
  | c' :: cs' => Seq (Lit c) (literal_from c' cs')
  end.

(** A pattern without metacharacters; the parser's two are not empty. *)
Definition literal (t : text) : regex :=
  match t with
  | c :: cs => literal_from c cs
  | [] => Star (fun _ => false)
  end.

Definition any (_ : char) : bool := true.   (* [\s\S] *)

Fixpoint lookup_group (name : string) (g : groups) : option text :=
  match g with
  | [] => None
  | (n, t) :: g' => if String.eqb n name then Some t else lookup_group name g'
  end.

(** Whether a pattern sets the group [name]. *)
Fixpoint sets_group (name : string) (r : regex) : bool :=
  match r with
  | Group n r1 => String.eqb n name || sets_group name r1
  | Seq r1 r2 => sets_group name r1 || sets_group name r2
  | _ => false
  end.

End Re.

Import Re.

(** [r'\d+'] *)
Definition pat_digits : regex := Plus is_digit.

(** [r"(?P<name>[\s\S]*?)\s*\((?P<num>\d+)[\s\S]*\)"]: the lazy group
    [name], then the rest [\s*\((?P<num>\d+)[\s\S]*\)]. *)
Definition pat_bundle_rest : regex :=
  Seq (Star is_space)
   (Seq (Lit 40)
    (Seq (Group "num" (Plus is_digit))
     (Seq (Star any) (Lit 41)))).

Definition pat_bundle : regex :=
  Seq (Group "name" (LazyStar any)) pat_bundle_rest.

(** ** [int(n / d)]: true division, then truncation *)

Module FloatDiv.

(** [n / d] on two [int]s is the binary64 float nearest to the exact
    quotient (ties to even), or [OverflowError] when that is beyond the
    largest finite float. A finite float is kept as the pair [(m, e)] of an
    integer and a binary exponent, standing for [m * 2^e]. *)
Definition float : Type := Z * Z.

Definition round_half_even (a b : Z) : Z :=
  let q := a / b in
  let r := a mod b in
  if 2 * r <? b then q
  else if b <? 2 * r then q + 1
  else if Z.even q then q else q + 1.

(** [floor (log2 (a / b))] for positive [a] and [b]. *)
Definition log2_ratio (a b : Z) : Z :=
  let l := Z.log2 a - Z.log2 b in
  if 0 <=? l
  then (if b * 2 ^ l <=? a then l else l - 1)
  else (if b <=? a * 2 ^ (- l) then l else l - 1).

(** 53 bits of precision; the smallest exponent of the last place is
    -1074; values of 2^1024 and more overflow. *)
Definition true_divide_pos (a b : Z) : option float :=
  if a =? 0 then Some (0, 0)
  else
    let e := Z.max (log2_ratio a b - 52) (-1074) in
    let m := if 0 <=? e then round_half_even a (b * 2 ^ e)
             else round_half_even (a * 2 ^ (- e)) b in
    if (0 <=? e) && (2 ^ 1024 <=? m * 2 ^ e) then None else Some (m, e).

(** For a positive divisor; the sign of the dividend passes through. *)
Definition true_divide (a b : Z) : option float :=
  match true_divide_pos (Z.abs a) b with
  | Some (m, e) => Some (Z.sgn a * m, e)
  | None => None
  end.

(** [int(x)] for a finite float: truncation towards zero. *)
Definition int_of_float (x : float) : Z :=
  let '(m, e) := x in
  if 0 <=? e then m * 2 ^ e else Z.quot m (2 ^ (- e)).

End FloatDiv.

Import FloatDiv.

(** ** Exceptions and object state *)

Module Py.

Inductive value_error :=
| InvalidLiteral (s : text)   (* invalid literal for int() with base 10: s *)
| DigitLimit (digits : nat)   (* Exceeds the limit for integer string conversion *)
| ArrayLengths.               (* All arrays must be of the same length *)

Inductive exn :=
| IndexError                       (* list index out of range *)
| AttributeError (attr : string)   (* 'NoneType' object has no attribute attr *)
| KeyError (key : string)
| ValueError (why : value_error)
| OverflowError.                   (* integer division result too large for a float *)

(** A method body: it reads and updates the object [St] it is called on and
    either returns or raises; what it changed before raising stays
    changed. *)
Definition M (St A : Type) : Type := St -> (exn + A) * St.

#[global] Instance M_ret {St} : MRet (M St) := fun A x s => (inr x, s).

#[global] Instance M_bind {St} : MBind (M St) := fun A B f m s =>
  match m s with
  | (inr x, s') => f x s'
  | (inl e, s') => (inl e, s')
  end.

Definition raise {St A} (e : exn) : M St A := fun s => (inl e, s).
Definition get {St} : M St St := fun s => (inr s, s).
Definition modify {St} (f : St -> St) : M St unit := fun s => (inr tt, f s).

(** [for x in xs: body(x)] *)
Fixpoint for_each {St X} (body : X -> M St unit) (xs : list X) : M St unit :=
  match xs with
  | [] => mret tt
  | x :: xs' => body x ;; for_each body xs'
  end.

(** [xs[i]] for [0 <= i] *)
Definition index {St X} (xs : list X) (i : nat) : M St X :=
  match xs !! i with
  | Some x => mret x
  | None => raise IndexError
  end.

(** [int(s)] *)
Definition py_int {St} (s : text) : M St Z :=
  match int_of_str s with
  | Parsed n => mret n
  | Invalid => raise (ValueError (InvalidLiteral s))
  | TooLong nd => raise (ValueError (DigitLimit nd))
  end.

(** [int(n / d)] *)
Definition int_truediv {St} (n d : Z) : M St Z :=
  match true_divide n d with
  | Some x => mret (int_of_float x)
  | None => raise OverflowError
  end.

(** [re.search(r, s).group()] *)
Definition search_group {St} (r : regex) (s : text) : M St text :=
  match search r s with
  | Some m => mret (m_group m)
  | None => raise (AttributeError "group")
  end.

(** [re.search(r, s).groupdict()] *)
Definition search_groupdict {St} (r : regex) (s : text) : M St groups :=
  match search r s with
  | Some m => mret (m_groupdict m)
  | None => raise (AttributeError "groupdict")
  end.

(** [d[key]] on a [groupdict()] *)
Definition group_item {St} (d : groups) (key : string) : M St text :=
  match lookup_group key d with
  | Some t => mret t
  | None => raise (KeyError key)
  end.

End Py.

Import Py.

(** ** The parser *)

Module Rialcom.

(** What BeautifulSoup hands over: [data.find_all('table')], for each table
    [table.find_all('tr')], for each row [row.find_all('th')] and
    [row.find_all('td')], and for each cell its [.text]. *)
Record row := { th : list text; td : list text }.
Definition table := list row.
Definition document := list table.

(** An element of an output list: a [str] or an [int]. *)
Inductive value :=
| VStr (s : text)
| VInt (n : Z).

(** The attributes [ParserRialcom.__init__] creates. *)
Record obj := {
  names : list text;
  channels : list value;
  speeds : list Z;
  payments : list Z;
  count_tariff_channel : gmap text Z
}.

Definition init : obj :=
  {| names := []; channels := []; speeds := []; payments := [];
     count_tariff_channel := ∅ |}.

Definition names_append (x : text) : M obj unit :=
  modify (fun o => {| names := names o ++ [x]; channels := channels o;
                      speeds := speeds o; payments := payments o;
                      count_tariff_channel := count_tariff_channel o |}).

Definition channels_append (x : value) : M obj unit :=
  modify (fun o => {| names := names o; channels := channels o ++ [x];
                      speeds := speeds o; payments := payments o;
                      count_tariff_channel := count_tariff_channel o |}).

Definition speeds_append (x : Z) : M obj unit :=
  modify (fun o => {| names := names o; channels := channels o;
                      speeds := speeds o ++ [x]; payments := payments o;
                      count_tariff_channel := count_tariff_channel o |}).

Definition payments_append (x : Z) : M obj unit :=
  modify (fun o => {| names := names o; channels := channels o;
                      speeds := speeds o; payments := payments o ++ [x];
                      count_tariff_channel := count_tariff_channel o |}).

Definition count_tariff_channel_set (k : text) (v : Z) : M obj unit :=
  modify (fun o => {| names := names o; channels := channels o;
                      speeds := speeds o; payments := payments o;
                      count_tariff_channel := <[k := v]> (count_tariff_channel o) |}).

Definition lit_tariff : text := u "тариф".
Definition lit_internet : text := u "Интернет".
Definition null : value := VStr (u "null").
Definition connector : text := u " + РиалКом Интернет ".
Definition suffix_repeat : text := u " + TB_ч".
Definition suffix_first : text := u " + TB".

(** *** [DataRialcom.__process_tariff] *)

(** The body of [for row in rows[1:]]. *)
Definition process_tariff_row (r : row) : M obj unit :=
  let columns := td r in
  c0 ← index columns 0;
  names_append (strip c0);;
  channels_append null;;
  c3 ← index columns 3;
  digits ← search_group pat_digits (strip c3);
  n ← py_int digits;
  speed ← int_truediv n 1000;
  speeds_append speed;;
  c1 ← index columns 1;
  token ← index (split (strip c1)) 0;
  payment ← py_int token;
  payments_append payment.

Definition process_tariff (rows : list row) : M obj unit :=
  for_each process_tariff_row (drop 1 rows).

(** *** [DataRialcom.__wrtite_tariff_TV] *)

Definition tv_name (tariff : text) (speed : Z) (is_tariff : bool) : text :=
  tariff ++ connector ++ str_of_int speed
         ++ (if is_tariff then suffix_repeat else suffix_first).

(** The body of [for i in range(1, len(heads))]. *)
Definition wrtite_tariff_TV_col (heads columns : list text) (channel : Z)
    (is_tariff : bool) (tariff : text) (i : nat) : M obj unit :=
  h ← index heads i;
  let head := strip h in
  digits ← search_group pat_digits head;
  speed ← py_int digits;
  names_append (tv_name tariff speed is_tariff);;
  channels_append (VInt channel);;
  speeds_append speed;;
  c ← index columns i;
  payment ← py_int (strip c);
  payments_append payment.

Definition wrtite_tariff_TV (heads columns : list text) (channel : Z)
    (is_tariff : bool) (tariff : text) : M obj unit :=
  for_each (wrtite_tariff_TV_col heads columns channel is_tariff tariff)
           (seq 1 (length heads - 1)).

(** *** [DataRialcom.__process_tariff_TV] *)

(** The body of [for row in rows[1:]]. *)
Definition process_tariff_TV_row (heads : list text) (r : row) : M obj unit :=
  let columns := td r in
  c0 ← index columns 0;
  let tariff := strip c0 in
  self ← get;
  match count_tariff_channel self !! tariff with
  | Some channel =>
    wrtite_tariff_TV heads columns channel true tariff
  | None =>
    d ← search_groupdict pat_bundle tariff;
    name ← group_item d "name";
    digits ← group_item d "num";
    num ← py_int digits;
    count_tariff_channel_set name num;;
    wrtite_tariff_TV heads columns num false tariff
  end.

Definition process_tariff_TV (rows : list row) (heads : list text) : M obj unit :=
  for_each (process_tariff_TV_row heads) (drop 1 rows).

(** *** [DataRialcom.process_data] *)

Definition found (pattern s : text) : bool :=
  match search (literal pattern) s with
  | Some _ => true
  | None => false
  end.

(** The body of [for table in tables]. *)
Definition process_table (t : table) : M obj unit :=
  let rows := t in
  r0 ← index rows 0;
  let heads := th r0 in
  let united_heads := join (u " ") heads in
  if found lit_tariff united_heads then process_tariff rows
  else if found lit_internet united_heads then process_tariff_TV rows heads
  else mret tt.

(** The returned list [[self.names, self.channels, self.speeds,
    self.payments]]. *)
Definition output (o : obj) : list (list value) :=
  [ VStr <$> names o; channels o; VInt <$> speeds o; VInt <$> payments o ].

Definition DataRialcom_process_data (tables : document) : M obj (list (list value)) :=
  for_each process_table tables;;
  self ← get;
  mret (output self).

(** *** [ParserRialcom] *)

(** A [ParserRialcom] instance: the page [load_data] stored and the
    attributes of [__init__]. *)
Record parser := {
  data : document;
  attrs : obj
}.

Definition ParserRialcom_init (d : document) : parser :=
  {| data := d; attrs := init |}.

(** [DataRialcom(data)]: [super().__init__()] gives the new object its own
    empty lists and dictionary. *)
Definition DataRialcom_init (d : document) : parser :=
  {| data := d; attrs := init |}.

(** A method of [DataRialcom] run on an instance. *)
Definition on_attrs {A} (m : M obj A) : M parser A := fun p =>
  let '(r, o) := m (attrs p) in (r, {| data := data p; attrs := o |}).

Definition DataRialcom_process_data_method : M parser (list (list value)) :=
  fun self => on_attrs (DataRialcom_process_data (data self)) self.

(** [ParserRialcom.process_data]: the work is done on a new [DataRialcom]
    object, which is dropped on return. *)
Definition ParserRialcom_process_data : M parser (list (list value)) :=
  fun self =>
    let processRialcom := DataRialcom_init (data self) in
    (fst (DataRialcom_process_data_method processRialcom), self).

(** [ParserRialcom.load_data] on a response with status 200. *)
Definition ParserRialcom_load_data (d : document) : M parser Z :=
  fun self => (inr 200, {| data := d; attrs := attrs self |}).

(** *** [ParserRialcom.save_data] *)

(** A [dict], in insertion order; assigning to a present key keeps its
    place. *)
Fixpoint dict_set {V} (k : text) (v : V) (d : list (text * V)) : list (text * V) :=
  match d with
  | [] => [(k, v)]
  | (k', v') :: d' =>
    if decide (k' = k) then (k, v) :: d' else (k', v') :: dict_set k v d'
  end.

(** [pd.DataFrame(dict of lists)]: one column per key, in order; the
    lists must have one length. Row [j] holds the [j]-th element of every
    column. *)
Record frame := {
  frame_columns : list text;
  frame_rows : list (list value)
}.

Definition same_lengths (cols : list (list value)) : bool :=
  match cols with
  | [] => true
  | c :: cs => forallb (fun c' => Nat.eqb (length c') (length c)) cs
  end.

Definition DataFrame {St} (d : list (text * list value)) : M St frame :=
  let cols := snd <$> d in
  if same_lengths cols then
    mret {| frame_columns := fst <$> d;
            frame_rows :=
              (fun j => omap (fun c => c !! j) cols)
                <$> seq 0 (length (default [] (head cols))) |}
  else raise (ValueError ArrayLengths).

(** What [df.to_excel(path, index=False)] writes: the sheet's header row
    and its data rows, under [path]. *)
Record xlsx := {
  xlsx_path : text;
  xlsx_header : list text;
  xlsx_rows : list (list value)
}.

Definition to_excel (df : frame) (path : text) : xlsx :=
  {| xlsx_path := path;
     xlsx_header := frame_columns df;
     xlsx_rows := frame_rows df |}.

Definition headers : list text :=
  [ u "Название тарифа"; u "Количество каналов";
    u "Скорость доступа"; u "Абонентская плата" ].

(** The loop [for i in range(len(headers)): _dict[headers[i]] = data[i]]. *)
Fixpoint fill_dict {St} (data : list (list value)) (range : list nat)
    (d : list (text * list value)) : M St (list (text * list value)) :=
  match range with
  | [] => mret d
  | i :: range' =>
    h ← index headers i;
    col ← index data i;
    fill_dict data range' (dict_set h col d)
  end.

Definition ParserRialcom_save_data (name : text) : M parser xlsx :=
  data ← ParserRialcom_process_data;
  _dict ← fill_dict data (seq 0 (length headers)) [];
  df ← DataFrame _dict;
  mret (to_excel df (name ++ u ".xlsx")).

Definition default_name : text := u "example".

End Rialcom.

Import Rialcom.

(** ** Vocabulary of the specification *)

Module Spec.

(** One tariff record; the parser keeps the four fields in four parallel
    lists. *)
Record record := {
  r_name : text;
  r_channels : value;
  r_speed : Z;
  r_payment : Z
}.

Definition emit (o : obj) (rec : record) : obj :=
  {| names := names o ++ [r_name rec];
     channels := channels o ++ [r_channels rec];
     speeds := speeds o ++ [r_speed rec];
     payments := payments o ++ [r_payment rec];
     count_tariff_channel := count_tariff_channel o |}.

Definition emit_all (o : obj) (recs : list record) : obj :=
  fold_left emit recs o.

Definition with_registry (o : obj) (reg : gmap text Z) : obj :=
  {| names := names o; channels := channels o; speeds := speeds o;
     payments := payments o; count_tariff_channel := reg |}.

(** The four output sequences have one length. *)
Definition balanced (o : obj) : Prop :=
  length (channels o) = length (names o)
  /\ length (speeds o) = length (names o)
  /\ length (payments o) = length (names o).

(** [pattern] occurs in [s]. *)
Definition substring (pattern s : text) : Prop :=
  exists before after, s = before ++ pattern ++ after.

(** [s] ends in [suffix]. *)
Definition ends_with (suffix s : text) : Prop :=
  exists before, s = before ++ suffix.

(** The first run of decimal digits of [s], if [s] has a digit. *)
Definition first_digit_run (s : text) : option text :=
  match drop_while (fun c => negb (is_digit c)) s with
  | [] => None
  | s1 => Some (fst (span is_digit s1))
  end.

(** The first whitespace-delimited token of [s], if [s] is not blank. *)
Definition first_token (s : text) : option text :=
  match drop_while is_space s with
  | [] => None
  | s1 => Some (fst (span (fun c => negb (is_space c)) s1))
  end.

(** [s] has a parenthesized group that starts with a digit: an opening
    parenthesis, a digit right after it, a closing parenthesis later. *)
Definition has_digit_group (s : text) : Prop :=
  exists before d inside after,
    s = before ++ 40 :: d :: inside ++ 41 :: after /\ is_digit d = true.

(** The words a pattern matches, whatever the engine's preferences. *)
Inductive lang : regex -> text -> Prop :=
| lang_Lit c : lang (Lit c) [c]
| lang_Class (p : char -> bool) c : p c = true -> lang (Class p) [c]
| lang_Star (p : char -> bool) w : forallb p w = true -> lang (Star p) w
| lang_LazyStar (p : char -> bool) w : forallb p w = true -> lang (LazyStar p) w
| lang_Group name r w : lang r w -> lang (Group name r) w
| lang_Seq r1 r2 w1 w2 : lang r1 w1 -> lang r2 w2 -> lang (Seq r1 r2) (w1 ++ w2).

(** A method that returns normally from a state in [P] ends in [Q]. *)
Definition preserves {St A} (P : St -> Prop) (m : M St A) (Q : St -> Prop) : Prop :=
  forall s a s', P s -> m s = (inr a, s') -> Q s'.

(** A method that raises from every state in [P]. *)
Definition aborts {St A} (P : St -> Prop) (m : M St A) : Prop :=
  forall s, P s -> exists e s', m s = (inl e, s').

(** [n / 1000] then [int]: the speed of a plain tariff. *)
Definition speed_of (n : Z) : option Z :=
  int_of_float <$> true_divide n 1000.

(** Below this bound the float quotient still truncates to the integer
    quotient. *)
Definition exact_bound : Z := 2 ^ 44 * 1000.

Definition parsed (r : int_parse) : option Z :=
  match r with Parsed n => Some n | _ => None end.

(** The record of a plain-tariff row ("format 1"): name from cell 0,
    speed from the first digit run of cell 3, payment from the first token
    of cell 1; no channel count. *)
Definition plain_row_record (r : row) : option record :=
  c0 ← td r !! 0%nat;
  c3 ← td r !! 3%nat;
  ds ← first_digit_run c3;
  n ← parsed (int_of_str ds);
  speed ← speed_of n;
  c1 ← td r !! 1%nat;
  token ← first_token c1;
  payment ← parsed (int_of_str token);
  Some {| r_name := strip c0; r_channels := null;
          r_speed := speed; r_payment := payment |}.

(** The record of one speed column of a bundle row ("format 2"): speed
    from the first digit run of header cell [i], payment from data cell
    [i] without the whitespace around it, the name put together from
    the label and the speed. *)
Definition tv_col_record (heads columns : list text) (channel : Z)
    (repeat : bool) (label : text) (i : nat) : option record :=
  h ← heads !! i;
  ds ← first_digit_run h;
  speed ← parsed (int_of_str ds);
  c ← columns !! i;
  payment ← parsed (int_of_str (strip c));
  Some {| r_name := label ++ connector ++ str_of_int speed
                      ++ (if repeat then suffix_repeat else suffix_first);
          r_channels := VInt channel;
          r_speed := speed; r_payment := payment |}.

(** Base name and channel count of a label the bundle pattern matches. *)
Definition parse_bundle (label : text) : option (text * Z) :=
  m ← search pat_bundle label;
  name ← lookup_group "name" (m_groupdict m);
  ds ← lookup_group "num" (m_groupdict m);
  num ← parsed (int_of_str ds);
  Some (name, num).

(** The channel count of a bundle row, whether the row is a repeat, and
    the registry afterwards. *)
Definition resolve (reg : gmap text Z) (label : text)
  : option (Z * bool * gmap text Z) :=
  match reg !! label with
  | Some channel => Some (channel, true, reg)
  | None =>
    '(name, num) ← parse_bundle label;
    Some (num, false, <[name := num]> reg)
  end.

(** The records the four lists hold, and a record as a sheet row. *)
Definition records (o : obj) : list record :=
  zip_with (fun '(n, c) '(s, p) =>
              {| r_name := n; r_channels := c; r_speed := s; r_payment := p |})
           (zip (names o) (channels o)) (zip (speeds o) (payments o)).

Definition row_of (rec : record) : list value :=
  [ VStr (r_name rec); r_channels rec; VInt (r_speed rec); VInt (r_payment rec) ].

(** A client of a [ParserRialcom] object: it loads pages and asks for
    their tariffs, in any order. *)
Inductive call :=
| Load (d : document)
| Process.

Fixpoint run_calls (cs : list call) (p : parser)
  : list (exn + list (list value)) * parser :=
  match cs with
  | [] => ([], p)
  | Load d :: cs' => run_calls cs' (snd (ParserRialcom_load_data d p))
  | Process :: cs' =>
    let '(r, p') := ParserRialcom_process_data p in
    let '(rs, p'') := run_calls cs' p' in
    (r :: rs, p'')
  end.

(** What the client should see if every call works on a registry of its
    own: each answer depends on the page loaded last and nothing else. *)
Fixpoint independent_answers (cs : list call) (d : document)
  : list (exn + list (list value)) :=
  match cs with
  | [] => []
  | Load d' :: cs' => independent_answers cs' d'
  | Process :: cs' =>
    fst (DataRialcom_process_data d init) :: independent_answers cs' d
  end.

(** The heading of a table: its first row's header cells, joined. *)
Definition united (r0 : row) : text := join (u " ") (th r0).

(** Malformed cells of a plain-tariff row. *)
Inductive malformed_plain (r : row) : Prop :=
| plain_no_speed c3 :
    td r !! 3%nat = Some c3 -> first_digit_run c3 = None -> malformed_plain r
| plain_bad_payment c1 token :
    td r !! 1%nat = Some c1 -> first_token c1 = Some token ->
    int_of_str token = Invalid -> malformed_plain r.

(** No label of the page has [label] as its base name, so [label] never
    becomes a key of the registry. *)
Definition never_registered (d : document) (label : text) : Prop :=
  forall t r c0 name num,
    In t d -> In r t -> td r !! 0%nat = Some c0 ->
    parse_bundle (strip c0) = Some (name, num) -> name <> label.

(** No key of the registry has a parenthesized digit group. *)
Definition keys_plain (o : obj) : Prop :=
  forall k v, count_tariff_channel o !! k = Some v -> ~ has_digit_group k.

(** [label] is not a key of the registry. *)
Definition unregistered (label : text) (o : obj) : Prop :=
  count_tariff_channel o !! label = None.

(** Malformed cells of a bundle row under the header cells [heads]. *)
Inductive malformed_tv (d : document) (heads : list text) (r : row) : Prop :=
| tv_no_speed i h :
    (1 <= i)%nat -> heads !! i = Some h -> first_digit_run h = None ->
    malformed_tv d heads r
| tv_bad_payment i c :
    (1 <= i < length heads)%nat -> td r !! i = Some c ->
    int_of_str (strip c) = Invalid -> malformed_tv d heads r
| tv_bad_label c0 :
    td r !! 0%nat = Some c0 -> ~ has_digit_group (strip c0) ->
    never_registered d (strip c0) -> malformed_tv d heads r.

(** Where a malformed cell sits: table [k], data row [j] (row [j + 1] of
    the table). *)
Definition malformed_at (d : document) (k j : nat) : Prop :=
  exists r0 rows r,
    d !! k = Some (r0 :: rows) /\ rows !! j = Some r /\
    ((found lit_tariff (united r0) = true /\ malformed_plain r)
     \/ (found lit_tariff (united r0) = false
         /\ found lit_internet (united r0) = true
         /\ malformed_tv d (th r0) r)).

End Spec.

Import Spec.

(** ** Sample pages *)

Module Samples.

Definition cells (l : list string) : list text := u <$> l.
Definition header (l : list string) : row := {| th := cells l; td := [] |}.
Definition data_row (l : list string) : row := {| th := []; td := cells l |}.

(** A plain-tariff table. *)
Definition hdr_plain : row :=
  header ["Название тарифа"; "Абонентская плата"; "Период"; "Скорость"]%string.
Definition row_start : row :=
  data_row ["Старт"; "350 руб"; "-"; "Скорость до 30 Мбит/с"]%string.
Definition row_1500 : row :=
  data_row ["Дом"; "500 руб"; "-"; "1500"]%string.
Definition row_no_speed : row :=
  data_row ["Дом"; "500 руб"; "-"; "без ограничений"]%string.

(** A heading with both words: ["тариф"] wins. *)
Definition hdr_both : row :=
  header ["Интернет тариф"; "Абонентская плата"; "Период"; "Скорость"]%string.

(** A heading with neither word; the capital letter does not count. *)
Definition hdr_other : row := header ["Тариф"; "Цена"]%string.

(** Bundle tables. *)
Definition hdr_tv : row :=
  header ["Пакет"; "Интернет 50 Мбит/с"; "Интернет 100 Мбит/с"]%string.
Definition row_comfort : row :=
  data_row ["Комфорт (120 каналов)"; "600"; "800"]%string.
Definition row_comfort_base : row :=
  data_row ["Комфорт"; "650"; "850"]%string.
Definition row_ask_1 : row :=
  data_row ["Комфорт (120 каналов)"; "уточнить"; "800"]%string.
Definition row_ask_2 : row :=
  data_row ["Базовый (70 каналов)"; "500"; "уточнить"]%string.
Definition row_basic : row :=
  data_row ["Базовый (70 каналов)"; "500"; "700"]%string.

Definition page_start : document := [[hdr_plain; row_start]].
Definition page_twice : document :=
  [[hdr_tv; row_comfort]; [hdr_tv; row_comfort]].
Definition page_reuse : document :=
  [[hdr_tv; row_comfort]; [hdr_tv; row_comfort_base]].
Definition page_ask_1 : document := [[hdr_tv; row_ask_1]].
Definition page_ask_2 : document :=
  [[hdr_tv; row_comfort]; [hdr_tv; row_basic; row_ask_2]].
Definition page_mixed : document :=
  [[hdr_plain; row_1500]; [hdr_other; row_start]; [hdr_tv; row_comfort]].

End Samples.

Import Samples.

(** ** The driver *)

Module Driver.





End Driver.

Import Driver.

(** ** Further vocabulary *)

Module Laws.

(** Whatever a method does to the state, returning or raising. *)
Definition effect {St A} (R : St -> St -> Prop) (m : M St A) : Prop :=
  forall s, R s (snd (m s)).

(** From [P], a method returns into [Q] or raises into [E]. *)
Definition lands {St A} (P : St -> Prop) (m : M St A) (Q E : St -> Prop) : Prop :=
  forall s, P s ->
    match m s with
    | (inr _, s') => Q s'
    | (inl _, s') => E s'
    end.

(** The lists of [o'] extend those of [o]. *)
Definition extends (o o' : obj) : Prop :=
  names o `prefix_of` names o'
  /\ channels o `prefix_of` channels o'
  /\ speeds o `prefix_of` speeds o'
  /\ payments o `prefix_of` payments o'.

(** Every key of [o] is a key of [o']. *)
Definition keeps_keys (o o' : obj) : Prop :=
  forall k, is_Some (count_tariff_channel o !! k) ->
            is_Some (count_tariff_channel o' !! k).

Definition same_registry (o o' : obj) : Prop :=
  count_tariff_channel o' = count_tariff_channel o.

(** [o'] has the keys of [o], none with a parenthesized digit group. *)
Definition ahead (o o' : obj) : Prop := keeps_keys o o' /\ keys_plain o'.

(** At most the last record is incomplete, and what it lacks is the
    payment, or the speed and the payment. *)
Definition one_partial (o : obj) : Prop :=
  length (channels o) = length (names o)
  /\ (length (payments o) <= length (speeds o))%nat
  /\ (length (speeds o) <= length (names o))%nat
  /\ (length (names o) <= length (payments o) + 1)%nat.

(** A table that adds nothing: only a header row, or a heading with
    neither word. *)
Definition neutral (t : table) : bool :=
  match t with
  | [] => false
  | [r0] => true
  | r0 :: _ =>
    negb (found lit_tariff (united r0)) && negb (found lit_internet (united r0))
  end.

(** The number of records of a table: one per data row of a plain-tariff
    table, one per data row and speed column of a bundle table. *)
Definition table_records (t : table) : nat :=
  match t with
  | [] => 0
  | r0 :: rows =>
    if found lit_tariff (united r0) then length rows
    else if found lit_internet (united r0)
         then length rows * (length (th r0) - 1)
         else 0
  end.

Definition page_records (d : document) : nat :=
  foldr (fun t n => table_records t + n)%nat 0%nat d.

(** Each of the four lists of [o'] is [n] longer than in [o]. *)
Definition grew (n : nat) (o o' : obj) : Prop :=
  length (names o') = (length (names o) + n)%nat
  /\ length (channels o') = (length (channels o) + n)%nat
  /\ length (speeds o') = (length (speeds o) + n)%nat
  /\ length (payments o') = (length (payments o) + n)%nat.

(** The cells a table is read through: the header cells of the first row
    and the data cells of the others. *)
Definition view (t : table) : table :=
  match t with
  | [] => []
  | r0 :: rows =>
    {| th := th r0; td := [] |}
      :: ((fun r => {| th := []; td := td r |}) <$> rows)
  end.

(** Two rows with the same cells 0, 1 and 3. *)
Definition same_plain_cells (r r' : row) : Prop :=
  td r !! 0%nat = td r' !! 0%nat
  /\ td r !! 1%nat = td r' !! 1%nat
  /\ td r !! 3%nat = td r' !! 3%nat.

(** Two rows with the same cell 0 and the same cells under the header
    cells. *)
Definition same_tv_cells (heads : list text) (r r' : row) : Prop :=
  td r !! 0%nat = td r' !! 0%nat
  /\ forall i, (i < length heads)%nat -> td r !! i = td r' !! i.

(** No negative speed, channel count or registered count. *)
Definition channel_ok (v : value) : Prop :=
  v = null \/ exists n, v = VInt n /\ 0 <= n.

Definition counts_ok (o : obj) : Prop :=
  Forall (fun v => 0 <= v) (speeds o)
  /\ Forall channel_ok (channels o)
  /\ forall k v, count_tariff_channel o !! k = Some v -> 0 <= v.

(** The number a run of decimal digits writes. *)
Definition digits_value (ds : text) : Z :=
  fold_left (fun acc c => 10 * acc + default 0 (decimal_value c)) ds 0.



(** The groups of a pattern, with what each encloses. *)
Fixpoint groups_in (r : regex) : list (string * regex) :=
  match r with
  | Group n r1 => (n, r1) :: groups_in r1
  | Seq r1 r2 => groups_in r1 ++ groups_in r2
  | _ => []
  end.

End Laws.

Import Laws.
Example u_tarif : u "тариф" = [1090; 1072; 1088; 1080; 1092].
Proof. reflexivity. Qed.

Example strip_ex : strip (u "  350 руб ") = u "350 руб".
Proof. reflexivity. Qed.

Example split_ex : split (u " 350  руб") = [u "350"; u "руб"].
Proof. reflexivity. Qed.

Example int_ex : int_of_str (u " -1_000 ") = Parsed (-1000).
Proof. reflexivity. Qed.

Example int_ex_bad : int_of_str (u "уточнить") = Invalid.
Proof. reflexivity. Qed.

Example str_ex : str_of_int 50 = u "50".
Proof. reflexivity. Qed.

Example search_digits_ex :
  m_group <$> search pat_digits (u "Скорость до 30000 Кбит/с") = Some (u "30000").
Proof. reflexivity. Qed.

Example search_bundle_ex :
  m_groupdict <$> search pat_bundle (u "Комфорт (120 каналов)")
  = Some [("num"%string, u "120"); ("name"%string, u "Комфорт")].
Proof. vm_compute. reflexivity. Qed.

Example search_bundle_ex2 :
  m_groupdict <$> search pat_bundle (u "A (b) (12 c) (3)")
  = Some [("num"%string, u "12"); ("name"%string, u "A (b)")].
Proof. vm_compute. reflexivity. Qed.

Example search_literal_ex :
  m_start <$> search (literal (u "тариф")) (u "Название тарифа") = Some 9%nat.
Proof. vm_compute. reflexivity. Qed.

Example str_zero : str_of_int 0 = u "0".
Proof. reflexivity. Qed.

Example found_case_sensitive :
  found lit_tariff (u "Тариф") = false /\ found lit_tariff (u "Интернет тариф") = true.
Proof. split; vm_compute; reflexivity. Qed.

Example int_truediv_small :
  speed_of 30 = Some 0 /\ speed_of 1500 = Some 1 /\ speed_of 30000 = Some 30.
Proof. repeat split; vm_compute; reflexivity. Qed.

Example int_truediv_overflow : speed_of (10 ^ 400) = None.
Proof. vm_compute. reflexivity. Qed.

(** * Properties *)

(** ** Characters and strings *)

Section TextFacts.

Lemma space_cases c :
  is_space c = true ->
  (9 <= c <= 13) \/ (28 <= c <= 32) \/ c = 133 \/ c = 160 \/ c = 5760
  \/ (8192 <= c <= 8202) \/ c = 8232 \/ c = 8233 \/ c = 8239 \/ c = 8287
  \/ c = 12288.
Proof. unfold is_space. lia. Qed.

Lemma digit_not_space c : is_space c = true -> is_digit c = false.
Proof.
  intros H. apply space_cases in H.
  assert (Hc : In c ([9; 10; 11; 12; 13; 28; 29; 30; 31; 32; 133; 160; 5760]
                     ++ [8192; 8193; 8194; 8195; 8196; 8197; 8198; 8199; 8200;
                         8201; 8202; 8232; 8233; 8239; 8287; 12288])).
  { simpl. lia. }
  clear H. revert c Hc. apply List.Forall_forall.
  repeat (constructor; [vm_compute; reflexivity|]). constructor.
Qed.

Lemma space_not_digit c : is_digit c = true -> is_space c = false.
Proof.
  intros H. destruct (is_space c) eqn:E; [|done].
  apply digit_not_space in E. congruence.
Qed.

Lemma span_app (p : char -> bool) s :
  s = fst (span p s) ++ snd (span p s).
Proof.
  induction s as [|c s IH]; simpl; [done|].
  destruct (p c); [|done]. destruct (span p s). simpl in *. by f_equal.
Qed.

Lemma span_take (p : char -> bool) s :
  take (length s - length (snd (span p s))) s = fst (span p s).
Proof.
  pose proof (span_app p s) as H.
  destruct (span p s) as [a b]. simpl in *. subst s.
  rewrite length_app.
  replace (length a + length b - length b)%nat with (length a) by lia.
  apply take_app_length.
Qed.

Lemma lstrip_drop_while s : lstrip s = drop_while is_space s.
Proof. reflexivity. Qed.

(** What [drop_while] drops satisfies [p]; what it leaves does not start
    with a [p]. *)
Lemma drop_while_split (p : char -> bool) s :
  exists w, s = w ++ drop_while p s /\ forallb p w = true.
Proof.
  induction s as [|c s [w [Hs Hw]]]; simpl.
  - by exists [].
  - destruct (p c) eqn:E.
    + exists (c :: w). simpl. rewrite E, Hw. split; [by f_equal|done].
    + by exists [].
Qed.

Lemma drop_while_all (p : char -> bool) w s :
  forallb p w = true -> drop_while p (w ++ s) = drop_while p s.
Proof.
  induction w as [|c w IH]; simpl; [done|].
  intros [-> Hw]%andb_prop. auto.
Qed.

Lemma drop_while_idem (p : char -> bool) s :
  drop_while p (drop_while p s) = drop_while p s.
Proof.
  induction s as [|c s IH]; simpl; [done|].
  destruct (p c) eqn:E; [done|]. simpl. by rewrite E.
Qed.

(** A first run, of digits or of non-blanks, does not see what is appended
    after the text if that is all separator. *)
Lemma first_run_app (p q : char -> bool) a w :
  (forall c, q c = negb (p c)) ->
  forallb p w = true ->
  match drop_while p (a ++ w) with
  | [] => None
  | s1 => Some (fst (span q s1))
  end
  = match drop_while p a with
    | [] => None
    | s1 => Some (fst (span q s1))
    end.
Proof.
  intros Hq Hw. induction a as [|c a IH]; simpl.
  - rewrite <- (app_nil_r w), drop_while_all by done. done.
  - destruct (p c) eqn:E; [done|]. simpl.
    rewrite Hq, E. simpl. f_equal.
    clear IH. induction a as [|c' a IH]; simpl.
    + destruct w as [|c' w]; simpl; [done|].
      simpl in Hw. apply andb_prop in Hw as [Hc _].
      by rewrite Hq, Hc.
    + destruct (q c'); [|done].
      destruct (span q (a ++ w)), (span q a). simpl in *. congruence.
Qed.

Lemma rstrip_split s :
  exists w, s = rstrip s ++ w /\ forallb is_space w = true.
Proof.
  unfold rstrip.
  destruct (drop_while_split is_space (rev s)) as [w [Hs Hw]].
  rewrite <- lstrip_drop_while in Hs.
  exists (rev w). split.
  - rewrite <- rev_app_distr, <- Hs. by rewrite rev_involutive.
  - rewrite forallb_forall in *. intros x Hx. apply Hw. by apply in_rev.
Qed.

Lemma strip_split s :
  exists w1 w2, s = w1 ++ strip s ++ w2
    /\ forallb is_space w1 = true /\ forallb is_space w2 = true.
Proof.
  unfold strip.
  destruct (drop_while_split is_space s) as [w1 [Hs H1]].
  rewrite <- lstrip_drop_while in Hs.
  destruct (rstrip_split (lstrip s)) as [w2 [Hr H2]].
  exists w1, w2. split; [|done]. by rewrite <- Hr.
Qed.

Lemma first_digit_run_strip s : first_digit_run (strip s) = first_digit_run s.
Proof.
  destruct (strip_split s) as [w1 [w2 [Hs [H1 H2]]]].
  assert (Hnd : forall w, forallb is_space w = true ->
                forallb (fun c => negb (is_digit c)) w = true).
  { intros w Hw. rewrite forallb_forall in *. intros c Hc.
    by rewrite digit_not_space by auto. }
  unfold first_digit_run. rewrite Hs at 2.
  rewrite drop_while_all by auto.
  rewrite (first_run_app (fun c => negb (is_digit c)) is_digit); auto.
  intros c. by rewrite negb_involutive.
Qed.

Lemma first_token_strip s : first_token (strip s) = first_token s.
Proof.
  destruct (strip_split s) as [w1 [w2 [Hs [H1 H2]]]].
  unfold first_token. rewrite Hs at 2.
  rewrite drop_while_all by auto.
  by rewrite (first_run_app is_space (fun c => negb (is_space c))).
Qed.

Lemma split_first s : split s !! 0%nat = first_token s.
Proof.
  unfold split, first_token. rewrite <- lstrip_drop_while.
  cbn [split_fuel]. destruct (lstrip s) as [|c s1]; [done|].
  by destruct (span (fun c => negb (is_space c)) (c :: s1)).
Qed.

Lemma split_strip_first s : split (strip s) !! 0%nat = first_token s.
Proof. by rewrite split_first, first_token_strip. Qed.

Lemma drop_while_snoc (p : char -> bool) x c :
  p c = false -> drop_while p (x ++ [c]) = drop_while p x ++ [c].
Proof.
  intros Hc. induction x as [|d x IH]; simpl; [by rewrite Hc|].
  by destruct (p d).
Qed.

(** Trimming on the right keeps a first character that is not trimmed. *)
Lemma rtrim_cons (p : char -> bool) c s :
  p c = false ->
  rev (drop_while p (rev (c :: s))) = c :: rev (drop_while p (rev s)).
Proof.
  intros Hc. simpl. by rewrite drop_while_snoc, rev_app_distr.
Qed.

Lemma rstrip_cons c s :
  is_space c = false -> rstrip (c :: s) = c :: rstrip s.
Proof. apply rtrim_cons. Qed.

Lemma int_space_is_space c : is_int_space c = true -> is_space c = true.
Proof.
  unfold is_int_space. destruct (c <? 127) eqn:E; [|done].
  unfold is_space. lia.
Qed.

Lemma digit_not_int_space c : is_digit c = true -> is_int_space c = false.
Proof.
  intros H. destruct (is_int_space c) eqn:E; [|done].
  apply int_space_is_space in E. apply digit_not_space in E. congruence.
Qed.

Lemma int_trim_digit d s :
  is_digit d = true -> exists s', int_trim (d :: s) = d :: s'.
Proof.
  intros Hd. unfold int_trim. cbn [drop_while].
  rewrite (digit_not_int_space d Hd).
  rewrite rtrim_cons by by apply digit_not_int_space. by eexists.
Qed.

End TextFacts.

(** ** The matcher against the language of a pattern *)

Section ReFacts.

Lemma star_ends_lang (p : char -> bool) s s' :
  In s' (star_ends p s) -> exists w, s = w ++ s' /\ forallb p w = true.
Proof.
  revert s'. induction s as [|c s IH]; simpl; intros s' H.
  - destruct H as [<-|[]]. by exists [].
  - destruct (p c) eqn:E.
    + apply in_app_or in H as [H|[<-|[]]].
      * destruct (IH _ H) as [w [-> Hw]]. exists (c :: w). simpl.
        by rewrite E, Hw.
      * by exists [].
    + destruct H as [<-|[]]. by exists [].
Qed.

Lemma lazy_ends_lang (p : char -> bool) s s' :
  In s' (lazy_ends p s) -> exists w, s = w ++ s' /\ forallb p w = true.
Proof.
  revert s'. induction s as [|c s IH]; simpl; intros s' H.
  - destruct H as [<-|[]]. by exists [].
  - destruct (p c) eqn:E.
    + destruct H as [<-|H]; [by exists []|].
      destruct (IH _ H) as [w [-> Hw]]. exists (c :: w). simpl.
      by rewrite E, Hw.
    + destruct H as [<-|[]]. by exists [].
Qed.

Lemma lang_star_ends (p : char -> bool) w s' :
  forallb p w = true -> In s' (star_ends p (w ++ s')).
Proof.
  induction w as [|c w IH]; simpl.
  - intros _. destruct s' as [|c s']; simpl; [by left|].
    destruct (p c); [apply in_or_app; right|]; by left.
  - intros [-> Hw]%andb_prop. apply in_or_app. left. auto.
Qed.

Lemma lang_lazy_ends (p : char -> bool) w s' :
  forallb p w = true -> In s' (lazy_ends p (w ++ s')).
Proof.
  induction w as [|c w IH]; simpl.
  - intros _. destruct s' as [|c s']; simpl; [by left|].
    destruct (p c); by left.
  - intros [-> Hw]%andb_prop. right. auto.
Qed.

(** Every match the engine lists is a word of the language... *)
Lemma matches_lang r : forall s g s' g',
  In (s', g') (matches r s g) -> exists w, s = w ++ s' /\ lang r w.
Proof.
  induction r as [c|p|p|p|name r IH|r1 IH1 r2 IH2]; simpl; intros s g s' g' H.
  - destruct s as [|x s]; [done|].
    destruct (Z.eqb_spec x c) as [->|]; [|done].
    destruct H as [[= <- <-]|[]]. exists [c]. split; [done|constructor].
  - destruct s as [|x s]; [done|].
    destruct (p x) eqn:E; [|done].
    destruct H as [[= <- <-]|[]]. exists [x]. split; [done|by constructor].
  - apply in_map_iff in H as [t [[= <- <-] Ht]].
    destruct (star_ends_lang _ _ _ Ht) as [w [-> Hw]].
    exists w. split; [done|by constructor].
  - apply in_map_iff in H as [t [[= <- <-] Ht]].
    destruct (lazy_ends_lang _ _ _ Ht) as [w [-> Hw]].
    exists w. split; [done|by constructor].
  - apply in_map_iff in H as [[t gt] [[= <- <-] Ht]].
    destruct (IH _ _ _ _ Ht) as [w [-> Hw]].
    exists w. split; [done|by constructor].
  - apply in_flat_map in H as [[t gt] [Ht H]].
    destruct (IH1 _ _ _ _ Ht) as [w1 [-> Hw1]].
    destruct (IH2 _ _ _ _ H) as [w2 [-> Hw2]].
    exists (w1 ++ w2). split; [by rewrite <- app_assoc|by constructor].
Qed.

(** ... and every word of the language is among them. *)
Lemma lang_matches r w :
  lang r w -> forall s' g, exists g', In (s', g') (matches r (w ++ s') g).
Proof.
  induction 1 as [c|p c Hc|p w Hw|p w Hw|name r w _ IH
                  |r1 r2 w1 w2 _ IH1 _ IH2]; intros s' g; simpl.
  - rewrite Z.eqb_refl. exists g. by left.
  - rewrite Hc. exists g. by left.
  - exists g. apply in_map_iff. exists s'. split; [done|].
    by apply lang_star_ends.
  - exists g. apply in_map_iff. exists s'. split; [done|].
    by apply lang_lazy_ends.
  - destruct (IH s' g) as [g' Hg]. eexists. apply in_map_iff.
    exists (s', g'). split; [reflexivity|done].
  - destruct (IH1 (w2 ++ s') g) as [g1 H1].
    destruct (IH2 s' g1) as [g2 H2].
    exists g2. rewrite <- app_assoc. apply in_flat_map.
    exists (w2 ++ s', g1). split; [done|done].
Qed.

Lemma matches_nil_iff r s g :
  matches r s g = [] <-> forall w s', s = w ++ s' -> ~ lang r w.
Proof.
  split.
  - intros H w s' -> Hw.
    destruct (lang_matches _ _ Hw s' g) as [g' Hin].
    rewrite H in Hin. destruct Hin.
  - intros H. destruct (matches r s g) as [|[s' g'] l] eqn:E; [done|].
    exfalso.
    destruct (matches_lang r s g s' g') as [w [-> Hw]].
    { rewrite E. by left. }
    by eapply H.
Qed.

(** [re.search] fails exactly on the texts no part of which is a word of
    the pattern. *)
Lemma search_from_None r pos s :
  search_from r pos s = None
  <-> forall a w b, s = a ++ w ++ b -> ~ lang r w.
Proof.
  revert pos. induction s as [|c s IH]; intros pos; simpl.
  - destruct (matches r [] []) as [|[s' g'] l] eqn:E.
    + split; [|done]. intros _ a w b Hs.
      apply (proj1 (matches_nil_iff r [] [])) with (s' := b); [done|].
      destruct a; [done|discriminate].
    + split; [done|]. intros H. exfalso.
      destruct (matches_lang r [] [] s' g') as [w [Hs Hw]].
      { rewrite E. by left. }
      by apply (H [] w s').
  - destruct (matches r (c :: s) []) as [|[s' g'] l] eqn:E.
    + rewrite IH. split.
      * intros H a w b Hs. destruct a as [|c' a].
        { by apply (proj1 (matches_nil_iff r (c :: s) []) E w b). }
        { injection Hs as -> Hs. by apply (H a w b). }
      * intros H a w b Hs. apply (H (c :: a) w b). simpl. by f_equal.
    + split; [done|]. intros H. exfalso.
      destruct (matches_lang r (c :: s) [] s' g') as [w [Hs Hw]].
      { rewrite E. by left. }
      by apply (H [] w s').
Qed.

Lemma search_Some_iff r s :
  is_Some (search r s) <-> exists a w b, s = a ++ w ++ b /\ lang r w.
Proof.
  unfold search. split.
  - intros [m Hm].
    destruct (matches r s []) as [|[s' g'] l] eqn:E.
    + (* no match at the start: look at where the search stopped *)
      revert m Hm E. generalize 0%nat.
      induction s as [|c s IH]; intros pos m Hm E; simpl in Hm.
      * by rewrite E in Hm.
      * rewrite E in Hm.
        destruct (matches r s []) as [|[s' g'] l] eqn:E'.
        { destruct (IH (S pos) m Hm) as (a & w & b & -> & Hw); [done|].
          by exists (c :: a), w, b. }
        { destruct (matches_lang r s [] s' g') as [w [-> Hw]].
          { rewrite E'. by left. }
          by exists [c], w, s'. }
    + destruct (matches_lang r s [] s' g') as [w [-> Hw]].
      { rewrite E. by left. }
      by exists [], w, s'.
  - intros (a & w & b & Hs & Hw).
    destruct (search_from r 0 s) eqn:E; [done|].
    exfalso. by apply (proj1 (search_from_None r 0 s) E a w b).
Qed.

Lemma found_iff pattern s :
  found pattern s = true <-> exists a w b, s = a ++ w ++ b /\ lang (literal pattern) w.
Proof.
  unfold found. rewrite <- search_Some_iff.
  destruct (search (literal pattern) s); split; done.
Qed.

Lemma lang_literal_from c cs w : lang (literal_from c cs) w <-> w = c :: cs.
Proof.
  revert c w. induction cs as [|c' cs IH]; intros c w; simpl.
  - split; [by inversion 1|intros ->; constructor].
  - split.
    + inversion 1 as [| | | | |? ? w1 w2 H1 H2]; subst.
      inversion H1; subst. apply IH in H2. by subst.
    + intros ->. apply (lang_Seq _ _ [c] (c' :: cs)); [constructor|by apply IH].
Qed.

(** The search for a literal pattern is the substring test. *)
Lemma found_substring pattern s :
  pattern <> [] -> found pattern s = true <-> substring pattern s.
Proof.
  intros Hp. destruct pattern as [|c cs]; [done|].
  rewrite found_iff. unfold substring, literal. split.
  - intros (a & w & b & -> & Hw). apply lang_literal_from in Hw as ->. eauto.
  - intros (a & b & ->). exists a, (c :: cs), b. split; [done|].
    by apply lang_literal_from.
Qed.

Lemma star_ends_head (p : char -> bool) s :
  exists l, star_ends p s = snd (span p s) :: l.
Proof.
  induction s as [|c s [l IH]]; simpl; [by exists []|].
  destruct (p c); [|by exists []].
  rewrite IH. destruct (span p s). simpl. by eexists.
Qed.

(** [re.search(r'\d+', s).group()] is the first digit run of [s]. *)
Lemma search_digits_from pos s :
  m_group <$> search_from pat_digits pos s = first_digit_run s.
Proof.
  revert pos. induction s as [|c s IH]; intros pos; [done|].
  unfold first_digit_run. cbn [search_from pat_digits Plus matches drop_while].
  destruct (is_digit c) eqn:E; cbn [negb flat_map].
  - rewrite app_nil_r. cbn [matches].
    destruct (star_ends_head is_digit s) as [l ->]. cbn [map fmap option_map].
    cbn [option_fmap option_map m_group]. f_equal.
    pose proof (span_take is_digit (c :: s)) as H.
    cbn [span] in *. rewrite E in *.
    destruct (span is_digit s) as [a b]. apply H.
  - apply IH.
Qed.

Lemma search_digits s :
  m_group <$> search pat_digits s = first_digit_run s.
Proof. apply search_digits_from. Qed.

(** The bundle pattern matches somewhere exactly when the label has a
    parenthesized group that starts with a digit. *)
Lemma search_bundle_iff s :
  is_Some (search pat_bundle s) <-> has_digit_group s.
Proof.
  rewrite search_Some_iff.
  unfold has_digit_group, pat_bundle, pat_bundle_rest, Plus. split.
  - intros (a & w & b & -> & Hw).
    inversion Hw as [| | | | |? ? nm w1 Hnm H1]; subst; clear Hw.
    inversion H1 as [| | | | |? ? ws w2 Hws H2]; subst; clear H1.
    inversion H2 as [| | | | |? ? lp w3 Hlp H3]; subst; clear H2.
    inversion H3 as [| | | | |? ? num w4 Hnum H4]; subst; clear H3.
    inversion H4 as [| | | | |? ? mid rp Hmid Hrp]; subst; clear H4.
    inversion Hlp; subst. inversion Hrp; subst.
    inversion Hnum as [| | | |? ? ? Hn|]; subst.
    inversion Hn as [| | | | |? ? d ds Hd Hds]; subst.
    inversion Hd; subst.
    exists (a ++ nm ++ ws), c, (ds ++ mid), b. split; [|done].
    repeat (rewrite <- ?app_assoc; simpl). done.
  - intros (before & d & inside & after & -> & Hd).
    exists [], (before ++ [] ++ [40] ++ ([d] ++ []) ++ inside ++ [41]), after.
    split; [simpl; rewrite <- app_assoc; simpl; by rewrite <- app_assoc|].
    assert (Hany : forall t, forallb any t = true) by (by induction t).
    repeat constructor; try done; apply Hany.
Qed.

Lemma search_bundle_None s :
  search pat_bundle s = None <-> ~ has_digit_group s.
Proof.
  rewrite <- search_bundle_iff.
  destruct (search pat_bundle s); split; intros H; try done;
    try (by destruct H); exfalso; apply H; by eexists.
Qed.

(** *** The lazy group of the bundle pattern *)

Lemma matches_keeps_group name r :
  sets_group name r = false ->
  forall s g s' g',
    In (s', g') (matches r s g) -> lookup_group name g' = lookup_group name g.
Proof.
  induction r as [c|p|p|p|n r IH|r1 IH1 r2 IH2]; cbn [sets_group matches];
    intros Hr s g s' g' H.
  - destruct s as [|x s]; [done|]. destruct (x =? c); [|done].
    by destruct H as [[= <- <-]|[]].
  - destruct s as [|x s]; [done|]. destruct (p x); [|done].
    by destruct H as [[= <- <-]|[]].
  - by apply in_map_iff in H as [t [[= <- <-] _]].
  - by apply in_map_iff in H as [t [[= <- <-] _]].
  - apply orb_false_elim in Hr as [Hn Hr].
    apply in_map_iff in H as [[t gt] [[= <- <-] Ht]].
    cbn [lookup_group]. rewrite Hn. by eapply IH.
  - apply orb_false_elim in Hr as [Hr1 Hr2].
    apply in_flat_map in H as [[t gt] [Ht H]].
    rewrite (IH2 Hr2 _ _ _ _ H). by eapply IH1.
Qed.

Lemma flat_map_map {A B C} (f : B -> list C) (g : A -> B) l :
  flat_map f (map g l) = flat_map (fun x => f (g x)) l.
Proof. induction l as [|x l IH]; [done|]. cbn. by rewrite IH. Qed.

Lemma flat_map_ext_In {A B} (f g : A -> list B) l :
  (forall x, In x l -> f x = g x) -> flat_map f l = flat_map g l.
Proof.
  induction l as [|x l IH]; intros H; [done|]. cbn.
  rewrite (H x) by by left. rewrite IH; [done|]. intros; apply H. by right.
Qed.

(** The first match of a lazy group followed by [rest] gives the group
    the shortest text after which [rest] matches. *)
Lemma lazy_name_first rest name :
  sets_group name rest = false ->
  forall s pre s' g' l,
    flat_map (fun t => matches rest t
                         [(name, pre ++ take (length s - length t) s)])
             (lazy_ends any s)
    = (s', g') :: l ->
    exists w t,
      s = w ++ t
      /\ lookup_group name g' = Some (pre ++ w)
      /\ forall a b, w = a ++ b -> b <> [] ->
                     forall g, matches rest (b ++ t) g = [].
Proof.
  intros Hrest.
  assert (Hself : forall w, lookup_group name [(name, w)] = Some w).
  { intros w. cbn. by rewrite String.eqb_refl. }
  induction s as [|c s IH]; intros pre s' g' l H.
  - cbn in H. rewrite app_nil_r in H.
    exists [], []. split; [done|]. split.
    + rewrite (matches_keeps_group name rest Hrest [] [(name, pre ++ [])] s' g');
        [done|].
      rewrite H. by left.
    + intros [|] [|]; done.
  - cbn [lazy_ends any flat_map] in H.
    replace (length (c :: s) - length (c :: s))%nat with 0%nat in H by lia.
    cbn [take] in H.
    destruct (matches rest (c :: s) [(name, pre ++ [])]) as [|p l0] eqn:E.
    + cbn [app] in H.
      rewrite (flat_map_ext_In _
                 (fun t => matches rest t
                    [(name, (pre ++ [c]) ++ take (length s - length t) s)]))
        in H.
      2:{ intros t Ht.
          assert (Hlen : (length t <= length s)%nat).
          { apply lazy_ends_lang in Ht as [w [Hs _]].
            rewrite Hs, length_app. lia. }
          replace (length (c :: s) - length t)%nat
            with (S (length s - length t)) by (cbn [length]; lia).
          cbn [take]. by rewrite <- app_assoc. }
      destruct (IH _ _ _ _ H) as (w & t & -> & Hn & Hmin).
      exists (c :: w), t. split; [done|]. split.
      * by rewrite Hn, <- app_assoc.
      * intros [|c' a] b Hab Hb g.
        { cbn in Hab. subst b. apply matches_nil_iff.
          by apply (proj1 (matches_nil_iff rest _ _) E). }
        { injection Hab as -> ->. by apply (Hmin a b). }
    + injection H as -> _.
      exists [], (c :: s). split; [done|]. split.
      * rewrite (matches_keeps_group name rest Hrest (c :: s)
                   [(name, pre ++ [])] s' g'); [done|].
        rewrite E. by left.
      * intros [|] [|]; done.
Qed.

Lemma bundle_rest_word d inside :
  is_digit d = true -> lang pat_bundle_rest (40 :: d :: inside ++ [41]).
Proof.
  intros Hd.
  assert (Hany : forall t, forallb any t = true) by (by induction t).
  apply (lang_Seq _ _ [] (40 :: d :: inside ++ [41])); [by constructor|].
  apply (lang_Seq _ _ [40] (d :: inside ++ [41])); [constructor|].
  apply (lang_Seq _ _ [d] (inside ++ [41])).
  - constructor. apply (lang_Seq _ _ [d] []); by constructor.
  - apply lang_Seq; [constructor; apply Hany|constructor].
Qed.

(** The base name the bundle pattern captures has no parenthesized digit
    group of its own. *)
Lemma bundle_matches_name s s' g' l :
  matches pat_bundle s [] = (s', g') :: l ->
  exists w, lookup_group "name" g' = Some w /\ ~ has_digit_group w.
Proof.
  unfold pat_bundle. cbn [matches]. rewrite !flat_map_map. intros H.
  destruct (lazy_name_first pat_bundle_rest "name" eq_refl s [] s' g' l H)
    as (w & t & -> & Hn & Hmin).
  exists w. split; [done|].
  intros (before & d & inside & after & -> & Hd).
  specialize (Hmin before (40 :: d :: inside ++ 41 :: after) eq_refl
                ltac:(done) []).
  apply (proj1 (matches_nil_iff _ _ _) Hmin
           (40 :: d :: inside ++ [41]) (after ++ t)).
  - cbn. by rewrite <- !app_assoc.
  - by apply bundle_rest_word.
Qed.

Lemma lang_bundle_prefix a w : lang pat_bundle w -> lang pat_bundle (a ++ w).
Proof.
  unfold pat_bundle.
  inversion 1 as [| | | | |? ? nm w1 Hnm H1]; subst.
  rewrite app_assoc. constructor; [|done].
  constructor. constructor. clear. by induction (a ++ nm).
Qed.

(** A bundle label that matches at all matches from its start. *)
Lemma search_bundle_start s :
  search pat_bundle s
  = match matches pat_bundle s [] with
    | (rest, g) :: _ =>
      Some {| m_start := 0; m_group := take (length s - length rest) s;
              m_groupdict := g |}
    | [] => None
    end.
Proof.
  unfold search. destruct s as [|c s]; cbn [search_from].
  - by destruct (matches pat_bundle [] []) as [|[]].
  - destruct (matches pat_bundle (c :: s) []) as [|[rest g] l] eqn:E; [|done].
    apply search_from_None. intros a w b -> Hw.
    apply (proj1 (matches_nil_iff _ _ _) E ((c :: a) ++ w) b).
    + cbn. by rewrite <- app_assoc.
    + by apply lang_bundle_prefix.
Qed.

End ReFacts.

(** ** True division followed by truncation *)

Section FloatFacts.

Lemma round_half_even_bounds a b :
  0 <= a -> 0 < b ->
  a / b <= round_half_even a b <= a / b + 1
  /\ (round_half_even a b = a / b + 1 -> b <= 2 * (a mod b)).
Proof.
  intros Ha Hb. unfold round_half_even.
  destruct (2 * (a mod b) <? b) eqn:E1; [lia|].
  destruct (b <? 2 * (a mod b)) eqn:E2; [lia|].
  destruct (Z.even (a / b)); lia.
Qed.

Lemma log2_ratio_1000 n :
  0 < n < exact_bound -> -10 <= log2_ratio n 1000 <= 43.
Proof.
  intros [Hn Hb]. unfold log2_ratio.
  change (Z.log2 1000) with 9.
  assert (H0 : 0 <= Z.log2 n) by apply Z.log2_nonneg.
  assert (H1 : Z.log2 n < 54).
  { apply Z.log2_lt_pow2; [done|]. unfold exact_bound in Hb.
    assert (2 ^ 44 * 1000 < 2 ^ 54) by done. lia. }
  destruct (0 <=? Z.log2 n - 9) eqn:E0.
  - destruct (1000 * 2 ^ (Z.log2 n - 9) <=? n) eqn:E1; [|lia].
    apply Z.leb_le in E1. split; [lia|].
    destruct (Z.le_gt_cases 44 (Z.log2 n - 9)) as [Hl|Hl]; [|lia].
    assert (2 ^ 44 <= 2 ^ (Z.log2 n - 9)) by (apply Z.pow_le_mono_r; lia).
    unfold exact_bound in Hb. lia.
  - destruct (1000 <=? n * 2 ^ (- (Z.log2 n - 9))); lia.
Qed.

(** With at least nine binary places after the point, rounding the
    thousandths to nearest cannot reach the next integer. *)
Lemma round_scaled_floor n k :
  0 <= n -> 9 <= k ->
  round_half_even (n * 2 ^ k) 1000 / 2 ^ k = n / 1000.
Proof.
  intros Hn Hk.
  assert (HP : 512 <= 2 ^ k).
  { change 512 with (2 ^ 9). apply Z.pow_le_mono_r; lia. }
  set (P := 2 ^ k) in *.
  destruct (round_half_even_bounds (n * P) 1000) as [[Hlo Hhi] Hup]; [nia|lia|].
  set (m := round_half_even (n * P) 1000) in *.
  symmetry. apply Z.div_unique with (r := m - n / 1000 * P); [|lia].
  left.
  pose proof (Z.div_mod n 1000 ltac:(lia)) as Dn.
  pose proof (Z.mod_pos_bound n 1000 ltac:(lia)) as Rn.
  pose proof (Z.div_mod (n * P) 1000 ltac:(lia)) as DA.
  pose proof (Z.mod_pos_bound (n * P) 1000 ltac:(lia)) as RA.
  set (q := n / 1000) in *. set (r := n mod 1000) in *.
  set (t := n * P / 1000) in *. set (s := (n * P) mod 1000) in *.
  assert (HA : 1000 * t + s = 1000 * (q * P) + r * P) by nia.
  assert (Hrp : 0 <= r * P <= 999 * P) by nia.
  split.
  - assert (q * P <= t) by nia. lia.
  - destruct (Z.eq_dec m (t + 1)) as [Hm|Hm].
    + specialize (Hup Hm). nia.
    + assert (m = t) by lia. nia.
Qed.

(** Below [exact_bound], [int(n / 1000)] is the integer quotient. *)
Lemma speed_of_exact n :
  0 <= n < exact_bound -> speed_of n = Some (Z.quot n 1000).
Proof.
  intros [H0 Hb]. destruct (Z.eq_dec n 0) as [->|Hn]; [done|].
  pose proof (log2_ratio_1000 n ltac:(lia)) as HL.
  unfold speed_of, true_divide, true_divide_pos.
  rewrite Z.abs_eq by done. rewrite Z.sgn_pos by lia.
  rewrite (proj2 (Z.eqb_neq n 0)) by done.
  rewrite Z.max_l by lia.
  set (e := log2_ratio n 1000 - 52) in *.
  assert (He : (0 <=? e) = false) by (apply Z.leb_gt; lia).
  rewrite He. cbn [andb fmap option_fmap option_map int_of_float].
  rewrite He. f_equal. rewrite Z.mul_1_l.
  assert (HA : 0 <= n * 2 ^ (- e)).
  { apply Z.mul_nonneg_nonneg; [done|]. apply Z.pow_nonneg. lia. }
  assert (Hm : 0 <= round_half_even (n * 2 ^ (- e)) 1000).
  { destruct (round_half_even_bounds (n * 2 ^ (- e)) 1000) as [[Hlo _] _];
      [done|lia|].
    pose proof (Z.div_pos (n * 2 ^ (- e)) 1000 HA ltac:(lia)). lia. }
  rewrite Z.quot_div_nonneg; [|done|apply Z.pow_pos_nonneg; lia].
  rewrite Z.quot_div_nonneg by lia.
  apply round_scaled_floor; lia.
Qed.

End FloatFacts.

(** ** Running method bodies *)

Section RunFacts.

Context {St : Type}.

Lemma bind_run {A B} (m : M St A) (f : A -> M St B) s :
  (m ≫= f) s = match m s with
               | (inr x, s') => f x s'
               | (inl e, s') => (inl e, s')
               end.
Proof. reflexivity. Qed.

Lemma index_run {X} (xs : list X) i (s : St) :
  index xs i s = match xs !! i with
                 | Some x => (inr x, s)
                 | None => (inl IndexError, s)
                 end.
Proof. unfold index. by destruct (xs !! i). Qed.

Lemma py_int_run t (s : St) :
  py_int t s = match int_of_str t with
               | Parsed n => (inr n, s)
               | Invalid => (inl (ValueError (InvalidLiteral t)), s)
               | TooLong nd => (inl (ValueError (DigitLimit nd)), s)
               end.
Proof. unfold py_int. by destruct (int_of_str t). Qed.

Lemma int_truediv_run n (s : St) :
  int_truediv n 1000 s = match speed_of n with
                         | Some v => (inr v, s)
                         | None => (inl OverflowError, s)
                         end.
Proof.
  unfold int_truediv, speed_of. by destruct (true_divide n 1000).
Qed.

Lemma search_digits_run t (s : St) :
  search_group pat_digits (strip t) s
  = match first_digit_run t with
    | Some ds => (inr ds, s)
    | None => (inl (AttributeError "group"), s)
    end.
Proof.
  unfold search_group.
  rewrite <- first_digit_run_strip, <- search_digits.
  by destruct (search pat_digits (strip t)).
Qed.

Lemma first_token_run t (s : St) :
  index (split (strip t)) 0 s
  = match first_token t with
    | Some token => (inr token, s)
    | None => (inl IndexError, s)
    end.
Proof. by rewrite index_run, split_strip_first. Qed.

(** A loop over [xs ++ ys] is the loop over [xs], then the loop over
    [ys] if the first returned. *)
Lemma for_each_app {X} (body : X -> M St unit) xs ys s :
  for_each body (xs ++ ys) s
  = match for_each body xs s with
    | (inr _, s') => for_each body ys s'
    | (inl e, s') => (inl e, s')
    end.
Proof.
  revert s. induction xs as [|x xs IH]; intros s; [done|].
  simpl. rewrite !bind_run. destruct (body x s) as [[e|[]] s1]; [done|].
  apply IH.
Qed.

Lemma for_each_preserves {X} (I : St -> Prop) (body : X -> M St unit) xs :
  (forall x, In x xs -> preserves I (body x) I) ->
  preserves I (for_each body xs) I.
Proof.
  induction xs as [|x xs IH]; intros Hb s a s' Hs; simpl.
  - by intros [= _ <-].
  - rewrite bind_run. destruct (body x s) as [[e|[]] s1] eqn:E; [done|].
    apply IH; [intros; apply Hb; by right|].
    eapply Hb; [by left|done|done].
Qed.

(** If some element's body raises from every state of the invariant,
    the loop raises, there or before. *)
Lemma for_each_aborts {X} (I : St -> Prop) (body : X -> M St unit) xs x0 :
  (forall x, In x xs -> preserves I (body x) I) ->
  In x0 xs -> aborts I (body x0) -> aborts I (for_each body xs).
Proof.
  induction xs as [|x xs IH]; intros Hb Hin Hab s Hs; [done|].
  simpl. rewrite bind_run.
  destruct (body x s) as [[e|[]] s1] eqn:E; [by eauto|].
  destruct Hin as [->|Hin].
  - destruct (Hab s Hs) as (e & s2 & He). congruence.
  - apply IH; [intros; apply Hb; by right|done|done|].
    eapply Hb; [by left|done|done].
Qed.

(** The first body that raises decides how the loop ends. *)
Lemma for_each_first_raise {X} (body : X -> M St unit) xs x ys s s1 e s2 :
  for_each body xs s = (inr tt, s1) ->
  body x s1 = (inl e, s2) ->
  for_each body (xs ++ x :: ys) s = (inl e, s2).
Proof.
  intros H1 H2. rewrite for_each_app, H1. simpl. by rewrite bind_run, H2.
Qed.

End RunFacts.

(** ** Rows and their records *)

Section RowFacts.

Ltac run_head :=
  rewrite bind_run;
  first [ rewrite first_token_run | rewrite index_run
        | rewrite search_digits_run | rewrite py_int_run
        | rewrite int_truediv_run ].

Ltac run_append :=
  rewrite bind_run;
  unfold names_append, channels_append, speeds_append, payments_append,
         count_tariff_channel_set, modify;
  cbn beta iota zeta.

Ltac use_eqs H :=
  repeat (match goal with
          | E : _ = _ |- _ =>
            tryif constr_eq E H then fail else rewrite E in H
          end;
          cbn [mbind option_bind parsed] in H).

Ltac no_record f :=
  split; [ intros ?; simplify_eq
         | intros (? & Hrec & ?); exfalso; unfold f in Hrec;
           use_eqs Hrec; discriminate ].

Lemma process_tariff_row_ok r st st' :
  process_tariff_row r st = (inr tt, st')
  <-> exists rec, plain_row_record r = Some rec /\ st' = emit st rec.
Proof.
  unfold process_tariff_row.
  run_head. destruct (td r !! 0%nat) as [c0|] eqn:E0; cbn beta iota zeta;
    [|no_record plain_row_record].
  run_append. run_append.
  run_head. destruct (td r !! 3%nat) as [c3|] eqn:E3; cbn beta iota zeta;
    [|no_record plain_row_record].
  run_head. destruct (first_digit_run c3) as [ds|] eqn:Eds; cbn beta iota zeta;
    [|no_record plain_row_record].
  run_head. destruct (int_of_str ds) as [n| |] eqn:En; cbn beta iota zeta;
    [|no_record plain_row_record..].
  run_head. destruct (speed_of n) as [speed|] eqn:Esp; cbn beta iota zeta;
    [|no_record plain_row_record].
  run_append.
  run_head. destruct (td r !! 1%nat) as [c1|] eqn:E1; cbn beta iota zeta;
    [|no_record plain_row_record].
  run_head. destruct (first_token c1) as [token|] eqn:Etok; cbn beta iota zeta;
    [|no_record plain_row_record].
  run_head. destruct (int_of_str token) as [payment| |] eqn:Epay;
    cbn beta iota zeta; [|no_record plain_row_record..].
  unfold payments_append, modify, plain_row_record.
  rewrite E0, E3. cbn [mbind option_bind]. rewrite Eds. cbn [mbind option_bind].
  rewrite En. cbn [mbind option_bind parsed]. rewrite Esp.
  cbn [mbind option_bind]. rewrite E1. cbn [mbind option_bind].
  rewrite Etok. cbn [mbind option_bind]. rewrite Epay.
  cbn [mbind option_bind parsed].
  split.
  - intros [= <-]. eexists. split; [done|]. reflexivity.
  - intros (rec & [= <-] & ->). reflexivity.
Qed.

(** A loop whose body emits one record per element emits the records of
    all elements, in order, or raises if some element has none. *)
Lemma for_each_records {X} (body : X -> M obj unit) (R : X -> option record) xs :
  (forall x st st',
     body x st = (inr tt, st')
     <-> exists rec, R x = Some rec /\ st' = emit st rec) ->
  forall st st',
    for_each body xs st = (inr tt, st')
    <-> exists recs, mapM R xs = Some recs /\ st' = emit_all st recs.
Proof.
  intros Hb. induction xs as [|x xs IH]; intros st st'.
  - cbn. split.
    + intros [= <-]. by exists [].
    + intros (recs & [= <-] & ->). done.
  - cbn [for_each]. rewrite bind_run.
    destruct (body x st) as [[e|[]] s1] eqn:E.
    + split; [intros ?; simplify_eq|].
      intros (recs & Hrecs & _). exfalso.
      cbn in Hrecs. destruct (R x) as [rec|] eqn:ER; [|done].
      assert (body x st = (inr tt, emit st rec)) by (apply Hb; eauto).
      congruence.
    + apply Hb in E as (rec & ER & ->). rewrite IH. cbn. rewrite ER. cbn.
      split.
      * intros (recs & -> & ->). exists (rec :: recs). done.
      * intros (recs & Hrecs & ->).
        destruct (mapM R xs) as [recs'|]; [|done].
        injection Hrecs as <-. by exists recs'.
Qed.

Lemma process_tariff_ok rows st st' :
  process_tariff rows st = (inr tt, st')
  <-> exists recs, mapM plain_row_record (drop 1 rows) = Some recs
                   /\ st' = emit_all st recs.
Proof. apply for_each_records. apply process_tariff_row_ok. Qed.

Lemma wrtite_tariff_TV_col_ok heads columns channel is_tariff tariff i st st' :
  wrtite_tariff_TV_col heads columns channel is_tariff tariff i st = (inr tt, st')
  <-> exists rec,
        tv_col_record heads columns channel is_tariff tariff i = Some rec
        /\ st' = emit st rec.
Proof.
  unfold wrtite_tariff_TV_col.
  run_head. destruct (heads !! i) as [h|] eqn:Eh; cbn beta iota zeta;
    [|no_record tv_col_record].
  run_head. destruct (first_digit_run h) as [ds|] eqn:Eds; cbn beta iota zeta;
    [|no_record tv_col_record].
  run_head. destruct (int_of_str ds) as [speed| |] eqn:Esp; cbn beta iota zeta;
    [|no_record tv_col_record..].
  run_append. run_append. run_append.
  run_head. destruct (columns !! i) as [c|] eqn:Ec; cbn beta iota zeta;
    [|no_record tv_col_record].
  run_head.
  destruct (int_of_str (strip c)) as [payment| |] eqn:Epay;
    cbn beta iota zeta; [|no_record tv_col_record..].
  unfold payments_append, modify, tv_col_record.
  rewrite Eh. cbn [mbind option_bind]. rewrite Eds. cbn [mbind option_bind].
  rewrite Esp. cbn [mbind option_bind parsed]. rewrite Ec.
  cbn [mbind option_bind]. rewrite Epay. cbn [mbind option_bind parsed].
  split.
  - intros [= <-]. eexists. split; [done|]. reflexivity.
  - intros (rec & [= <-] & ->). reflexivity.
Qed.

Lemma wrtite_tariff_TV_ok heads columns channel is_tariff tariff st st' :
  wrtite_tariff_TV heads columns channel is_tariff tariff st = (inr tt, st')
  <-> exists recs,
        mapM (tv_col_record heads columns channel is_tariff tariff)
             (seq 1 (length heads - 1)) = Some recs
        /\ st' = emit_all st recs.
Proof. apply for_each_records. apply wrtite_tariff_TV_col_ok. Qed.

Lemma with_registry_same st : with_registry st (count_tariff_channel st) = st.
Proof. by destruct st. Qed.

(** A bundle row with a known label goes straight to the writer. *)
Lemma process_tariff_TV_row_repeat heads r c0 channel st :
  td r !! 0%nat = Some c0 ->
  count_tariff_channel st !! strip c0 = Some channel ->
  process_tariff_TV_row heads r st
  = wrtite_tariff_TV heads (td r) channel true (strip c0) st.
Proof.
  intros E0 Ereg. unfold process_tariff_TV_row.
  rewrite bind_run, index_run, E0. cbn beta iota zeta.
  rewrite bind_run. unfold get. cbn beta iota zeta. by rewrite Ereg.
Qed.

(** A bundle row with a new label is parsed, registered under its base
    name, and then written. *)
Lemma process_tariff_TV_row_first heads r c0 name num st :
  td r !! 0%nat = Some c0 ->
  count_tariff_channel st !! strip c0 = None ->
  parse_bundle (strip c0) = Some (name, num) ->
  process_tariff_TV_row heads r st
  = wrtite_tariff_TV heads (td r) num false (strip c0)
      (with_registry st (<[name := num]> (count_tariff_channel st))).
Proof.
  intros E0 Ereg Ep. unfold process_tariff_TV_row.
  rewrite bind_run, index_run, E0. cbn [mret M_ret raise].
  rewrite bind_run. unfold get. cbn [mret M_ret raise]. rewrite Ereg.
  unfold parse_bundle in Ep.
  rewrite bind_run. unfold search_groupdict.
  destruct (search pat_bundle (strip c0)) as [m|]; [|done].
  cbn [mbind option_bind parsed] in Ep. cbn [mret M_ret raise].
  rewrite bind_run. unfold group_item.
  destruct (lookup_group "name" (m_groupdict m)) as [nm|]; [|done].
  cbn [mbind option_bind parsed] in Ep. cbn [mret M_ret raise].
  rewrite bind_run.
  destruct (lookup_group "num" (m_groupdict m)) as [ds|]; [|done].
  cbn [mbind option_bind parsed] in Ep. cbn [mret M_ret raise].
  rewrite bind_run, py_int_run.
  destruct (int_of_str ds) as [n| |]; [|done..].
  cbn [mbind option_bind parsed] in Ep. injection Ep as -> ->.
  cbn [mret M_ret raise].
  run_append. reflexivity.
Qed.

(** A bundle row with a new label that does not parse raises. *)
Lemma process_tariff_TV_row_unparsed heads r c0 st :
  td r !! 0%nat = Some c0 ->
  count_tariff_channel st !! strip c0 = None ->
  parse_bundle (strip c0) = None ->
  exists e, process_tariff_TV_row heads r st = (inl e, st).
Proof.
  intros E0 Ereg Ep. unfold process_tariff_TV_row.
  rewrite bind_run, index_run, E0. cbn [mret M_ret raise].
  rewrite bind_run. unfold get. cbn [mret M_ret raise]. rewrite Ereg.
  unfold parse_bundle in Ep.
  rewrite bind_run. unfold search_groupdict.
  destruct (search pat_bundle (strip c0)) as [m|]; [|by eexists].
  cbn [mbind option_bind parsed] in Ep. cbn [mret M_ret raise].
  rewrite bind_run. unfold group_item.
  destruct (lookup_group "name" (m_groupdict m)) as [nm|]; [|by eexists].
  cbn [mbind option_bind parsed] in Ep. cbn [mret M_ret raise].
  rewrite bind_run.
  destruct (lookup_group "num" (m_groupdict m)) as [ds|]; [|by eexists].
  cbn [mbind option_bind parsed] in Ep. cbn [mret M_ret raise].
  rewrite bind_run, py_int_run.
  destruct (int_of_str ds) as [n| |]; [done|by eexists..].
Qed.

Lemma process_tariff_TV_row_ok heads r st st' :
  process_tariff_TV_row heads r st = (inr tt, st')
  <-> exists c0 channel repeat reg' recs,
        td r !! 0%nat = Some c0
        /\ resolve (count_tariff_channel st) (strip c0)
             = Some (channel, repeat, reg')
        /\ mapM (tv_col_record heads (td r) channel repeat (strip c0))
                (seq 1 (length heads - 1)) = Some recs
        /\ st' = emit_all (with_registry st reg') recs.
Proof.
  destruct (td r !! 0%nat) as [c0|] eqn:E0.
  2:{ unfold process_tariff_TV_row. rewrite bind_run, index_run, E0.
      split; [intros ?; simplify_eq|]. by intros (? & ? & ? & ? & ? & ? & _). }
  unfold resolve.
  destruct (count_tariff_channel st !! strip c0) as [channel|] eqn:Ereg.
  - rewrite (process_tariff_TV_row_repeat _ _ _ _ _ E0 Ereg).
    rewrite wrtite_tariff_TV_ok. split.
    + intros (recs & Hrecs & ->).
      exists c0, channel, true, (count_tariff_channel st), recs.
      by rewrite with_registry_same, Ereg.
    + intros (c & ch & rep & reg' & recs & [= <-] & Hres & Hrecs & ->).
      rewrite Ereg in Hres. injection Hres as <- <- <-.
      exists recs. by rewrite with_registry_same.
  - destruct (parse_bundle (strip c0)) as [[name num]|] eqn:Ep.
    + rewrite (process_tariff_TV_row_first _ _ _ _ _ _ E0 Ereg Ep).
      rewrite wrtite_tariff_TV_ok. split.
      * intros (recs & Hrecs & ->).
        exists c0, num, false, (<[name := num]> (count_tariff_channel st)), recs.
        rewrite Ereg, Ep. done.
      * intros (c & ch & rep & reg' & recs & [= <-] & Hres & Hrecs & ->).
        rewrite Ereg, Ep in Hres. cbn [mbind option_bind] in Hres.
        injection Hres as <- <- <-.
        by exists recs.
    + destruct (process_tariff_TV_row_unparsed heads _ _ _ E0 Ereg Ep) as [e He].
      rewrite He. split; [intros ?; simplify_eq|].
      intros (c & ch & rep & reg' & recs & [= <-] & Hres & _).
      rewrite Ereg, Ep in Hres. done.
Qed.

End RowFacts.

(** ** Tables *)

Section TableFacts.

Lemma process_table_nil st : process_table [] st = (inl IndexError, st).
Proof. reflexivity. Qed.

Lemma process_table_cons r0 rows st :
  process_table (r0 :: rows) st
  = if found lit_tariff (united r0) then process_tariff (r0 :: rows) st
    else if found lit_internet (united r0)
         then process_tariff_TV (r0 :: rows) (th r0) st
         else (inr tt, st).
Proof.
  unfold process_table. rewrite bind_run, index_run.
  cbn [lookup list_lookup]. cbn beta iota zeta. fold (united r0).
  destruct (found lit_tariff (united r0)); [done|].
  by destruct (found lit_internet (united r0)).
Qed.

Lemma lit_tariff_nonempty : lit_tariff <> [].
Proof. done. Qed.

Lemma lit_internet_nonempty : lit_internet <> [].
Proof. done. Qed.

(** *** The four lists grow together *)

Lemma balanced_init : balanced init.
Proof. done. Qed.

Lemma balanced_emit o rec : balanced o -> balanced (emit o rec).
Proof.
  intros (H1 & H2 & H3). unfold balanced, emit. cbn.
  rewrite !length_app. cbn. lia.
Qed.

Lemma emit_all_cons o rec recs :
  emit_all o (rec :: recs) = emit_all (emit o rec) recs.
Proof. reflexivity. Qed.

Lemma balanced_emit_all o recs : balanced o -> balanced (emit_all o recs).
Proof.
  revert o. induction recs as [|rec recs IH]; intros o Ho; [done|].
  rewrite emit_all_cons. apply IH. by apply balanced_emit.
Qed.

Lemma balanced_with_registry o reg : balanced o -> balanced (with_registry o reg).
Proof. done. Qed.

Lemma wrtite_tariff_TV_col_balanced heads columns channel is_tariff tariff i :
  preserves balanced
    (wrtite_tariff_TV_col heads columns channel is_tariff tariff i) balanced.
Proof.
  intros s [] s' Hs (rec & _ & ->)%wrtite_tariff_TV_col_ok.
  by apply balanced_emit.
Qed.

Lemma process_tariff_row_balanced r :
  preserves balanced (process_tariff_row r) balanced.
Proof.
  intros s [] s' Hs (rec & _ & ->)%process_tariff_row_ok.
  by apply balanced_emit.
Qed.

Lemma process_tariff_TV_row_balanced heads r :
  preserves balanced (process_tariff_TV_row heads r) balanced.
Proof.
  intros s [] s' Hs H. apply process_tariff_TV_row_ok in H
    as (c0 & ch & rep & reg' & recs & _ & _ & _ & ->).
  by apply balanced_emit_all, balanced_with_registry.
Qed.

Lemma process_table_balanced t : preserves balanced (process_table t) balanced.
Proof.
  destruct t as [|r0 rows]; [by intros s a s' _ [=]|].
  intros s a s' Hs. rewrite process_table_cons.
  destruct (found lit_tariff (united r0)).
  - apply for_each_preserves; [|done].
    intros; apply process_tariff_row_balanced.
  - destruct (found lit_internet (united r0)).
    + apply for_each_preserves; [|done].
      intros; apply process_tariff_TV_row_balanced.
    + by intros [= <- <-].
Qed.

Lemma process_tables_balanced d :
  preserves balanced (for_each process_table d) balanced.
Proof. apply for_each_preserves. intros; apply process_table_balanced. Qed.

(** *** The registry is only touched by first-seen bundle rows *)

Lemma registry_emit_all o recs :
  count_tariff_channel (emit_all o recs) = count_tariff_channel o.
Proof.
  revert o. induction recs as [|rec recs IH]; intros o; [done|].
  by rewrite emit_all_cons, IH.
Qed.

Lemma names_emit_all o recs :
  names (emit_all o recs) = names o ++ (r_name <$> recs).
Proof.
  revert o. induction recs as [|rec recs IH]; intros o.
  - cbn. by rewrite app_nil_r.
  - rewrite emit_all_cons, IH. cbn. by rewrite <- app_assoc.
Qed.

Lemma mapM_length {A B} (f : A -> option B) l k :
  mapM f l = Some k -> length k = length l.
Proof. intros H. apply mapM_Some in H. symmetry. by eapply Forall2_length. Qed.

Lemma mapM_Forall {A B} (f : A -> option B) (P : B -> Prop) l k :
  (forall x y, f x = Some y -> P y) -> mapM f l = Some k -> Forall P k.
Proof.
  intros Hf H. apply mapM_Some in H.
  induction H; constructor; eauto.
Qed.


Lemma tv_col_record_fields heads columns channel repeat label i rec :
  tv_col_record heads columns channel repeat label i = Some rec ->
  r_channels rec = VInt channel
  /\ r_name rec = label ++ connector ++ str_of_int (r_speed rec)
                    ++ (if repeat then suffix_repeat else suffix_first).
Proof.
  unfold tv_col_record. intros H.
  destruct (heads !! i); [|done]. cbn [mbind option_bind] in H.
  destruct (first_digit_run _); [|done]. cbn [mbind option_bind] in H.
  destruct (parsed _); [|done]. cbn [mbind option_bind] in H.
  destruct (columns !! i); [|done]. cbn [mbind option_bind] in H.
  destruct (parsed _); [|done]. cbn [mbind option_bind] in H.
  by injection H as <-.
Qed.

End TableFacts.

(** ** Malformed cells *)

Section AbortFacts.

Lemma lookup_In {A} (l : list A) i x : l !! i = Some x -> In x l.
Proof.
  revert i. induction l as [|y l IH]; intros [|i] H; try done.
  - injection H as ->. by left.
  - right. by eapply IH.
Qed.

(** A method that cannot return raises. *)
Lemma no_return_aborts {St A} (I : St -> Prop) (m : M St A) :
  (forall s a s', I s -> m s = (inr a, s') -> False) -> aborts I m.
Proof.
  intros H s Hs. destruct (m s) as [[e|a] s'] eqn:E; [by eauto|].
  exfalso. by eapply H.
Qed.

Lemma plain_row_aborts r :
  malformed_plain r -> aborts (fun _ => True) (process_tariff_row r).
Proof.
  intros Hm. apply no_return_aborts. intros s [] s' _ H.
  apply process_tariff_row_ok in H as (rec & H & _).
  unfold plain_row_record in H.
  destruct (td r !! 0%nat); [|done]. cbn [mbind option_bind] in H.
  destruct Hm as [c3 E3 Eds|c1 token E1 Etok Epay].
  - rewrite E3 in H. cbn [mbind option_bind] in H. by rewrite Eds in H.
  - destruct (td r !! 3%nat); [|done]. cbn [mbind option_bind] in H.
    destruct (first_digit_run _); [|done]. cbn [mbind option_bind] in H.
    destruct (parsed _); [|done]. cbn [mbind option_bind] in H.
    destruct (speed_of _); [|done]. cbn [mbind option_bind] in H.
    rewrite E1 in H. cbn [mbind option_bind] in H.
    rewrite Etok in H. cbn [mbind option_bind] in H.
    rewrite Epay in H. done.
Qed.

Lemma tv_col_needed heads columns channel repeat label i recs :
  (1 <= i < length heads)%nat ->
  mapM (tv_col_record heads columns channel repeat label)
       (seq 1 (length heads - 1)) = Some recs ->
  is_Some (tv_col_record heads columns channel repeat label i).
Proof.
  intros Hi H.
  assert (Hall : is_Some (mapM (tv_col_record heads columns channel repeat label)
                               (seq 1 (length heads - 1)))) by by eexists.
  apply mapM_is_Some in Hall. rewrite Forall_forall in Hall.
  apply (Hall i). apply elem_of_seq. lia.
Qed.

Lemma tv_no_speed_aborts heads r i h :
  (1 <= i)%nat -> heads !! i = Some h -> first_digit_run h = None ->
  aborts (fun _ => True) (process_tariff_TV_row heads r).
Proof.
  intros Hi Eh Eds. apply no_return_aborts. intros s [] s' _ H.
  apply process_tariff_TV_row_ok in H
    as (c0 & ch & rep & reg' & recs & E0 & _ & Hrecs & _).
  assert (Hlt : (1 <= i < length heads)%nat).
  { split; [done|by eapply lookup_lt_Some]. }
  destruct (tv_col_needed _ _ _ _ _ i _ Hlt Hrecs) as [rec Hrec].
  unfold tv_col_record in Hrec. rewrite Eh in Hrec.
  cbn [mbind option_bind] in Hrec. by rewrite Eds in Hrec.
Qed.

Lemma tv_bad_payment_aborts heads r i c :
  (1 <= i < length heads)%nat -> td r !! i = Some c ->
  int_of_str (strip c) = Invalid ->
  aborts (fun _ => True) (process_tariff_TV_row heads r).
Proof.
  intros Hi Ec Epay. apply no_return_aborts. intros s [] s' _ H.
  apply process_tariff_TV_row_ok in H
    as (c0 & ch & rep & reg' & recs & E0 & _ & Hrecs & _).
  destruct (tv_col_needed _ _ _ _ _ i _ Hi Hrecs) as [rec Hrec].
  unfold tv_col_record in Hrec.
  destruct (heads !! i); [|done]. cbn [mbind option_bind] in Hrec.
  destruct (first_digit_run _); [|done]. cbn [mbind option_bind] in Hrec.
  destruct (parsed _); [|done]. cbn [mbind option_bind] in Hrec.
  rewrite Ec in Hrec. cbn [mbind option_bind] in Hrec.
  rewrite Epay in Hrec. done.
Qed.

Lemma tv_label_aborts heads r c0 :
  td r !! 0%nat = Some c0 -> ~ has_digit_group (strip c0) ->
  aborts (unregistered (strip c0)) (process_tariff_TV_row heads r).
Proof.
  intros E0 Hg. apply no_return_aborts. intros s [] s' Hs H.
  apply process_tariff_TV_row_ok in H
    as (c & ch & rep & reg' & recs & E & Hres & _).
  rewrite E0 in E. injection E as <-.
  unfold resolve in Hres. unfold unregistered in Hs. rewrite Hs in Hres.
  unfold parse_bundle in Hres.
  apply search_bundle_None in Hg. by rewrite Hg in Hres.
Qed.

Lemma process_tariff_row_unregistered label r :
  preserves (unregistered label) (process_tariff_row r) (unregistered label).
Proof.
  intros s [] s' Hs (rec & _ & ->)%process_tariff_row_ok. done.
Qed.

Lemma process_tariff_TV_row_unregistered label heads r :
  (forall c0 name num, td r !! 0%nat = Some c0 ->
     parse_bundle (strip c0) = Some (name, num) -> name <> label) ->
  preserves (unregistered label) (process_tariff_TV_row heads r)
            (unregistered label).
Proof.
  intros Hr s [] s' Hs H.
  apply process_tariff_TV_row_ok in H
    as (c0 & ch & rep & reg' & recs & E0 & Hres & _ & ->).
  unfold unregistered in *. rewrite registry_emit_all. cbn.
  unfold resolve in Hres.
  destruct (count_tariff_channel s !! strip c0); [by injection Hres as <- <- <-|].
  destruct (parse_bundle (strip c0)) as [[name num]|] eqn:Ep; [|done].
  cbn [mbind option_bind] in Hres. injection Hres as <- <- <-.
  rewrite lookup_insert_ne; [done|]. by eapply Hr.
Qed.

Lemma process_table_unregistered d label t :
  never_registered d label -> In t d ->
  preserves (unregistered label) (process_table t) (unregistered label).
Proof.
  intros Hn Ht. destruct t as [|r0 rows]; [by intros s a s' _ [=]|].
  intros s a s' Hs. rewrite process_table_cons.
  destruct (found lit_tariff (united r0)).
  - apply for_each_preserves; [|done].
    intros; apply process_tariff_row_unregistered.
  - destruct (found lit_internet (united r0)).
    + apply for_each_preserves; [|done].
      intros r Hr. apply process_tariff_TV_row_unregistered.
      intros c0 name num E0 Ep. eapply Hn; [exact Ht| |exact E0|exact Ep].
      by right.
    + by intros [= <- <-].
Qed.

(** A page with a malformed cell in a processed row cannot be processed. *)
Lemma malformed_aborts d k j :
  malformed_at d k j ->
  exists e s', for_each process_table d init = (inl e, s').
Proof.
  intros (r0 & rows & r & Hk & Hj & Hm).
  apply lookup_In in Hk. pose proof (lookup_In _ _ _ Hj) as Hr.
  assert (Hplain : forall I,
    (forall t, In t d -> preserves I (process_table t) I) ->
    aborts I (process_table (r0 :: rows)) -> I init ->
    exists e s', for_each process_table d init = (inl e, s')).
  { intros I HI Hab Hinit.
    by apply (for_each_aborts I process_table d (r0 :: rows) HI Hk Hab). }
  destruct Hm as [[Hf Hm]|(Hf1 & Hf2 & Hm)].
  - apply (Hplain (fun _ => True)); [done| |done].
    intros s Hs. rewrite process_table_cons, Hf.
    apply (for_each_aborts (fun _ => True) process_tariff_row rows r);
      [done|done|by apply plain_row_aborts|done].
  - assert (Htv : aborts (fun _ => True) (process_tariff_TV_row (th r0) r) ->
      exists e s', for_each process_table d init = (inl e, s')).
    { intros Hab. apply (Hplain (fun _ => True)); [done| |done].
      intros s Hs. rewrite process_table_cons, Hf1, Hf2.
      by apply (for_each_aborts (fun _ => True)
                  (process_tariff_TV_row (th r0)) rows r). }
    destruct Hm as [i h Hi Eh Eds|i c Hi Ec Epay|c0 E0 Hg Hn].
    + apply Htv. by eapply tv_no_speed_aborts.
    + apply Htv. by eapply tv_bad_payment_aborts.
    + apply (Hplain (unregistered (strip c0))); [| |done].
      * intros t Ht. by eapply process_table_unregistered.
      * intros s Hs. rewrite process_table_cons, Hf1, Hf2.
        apply (for_each_aborts (unregistered (strip c0))
                 (process_tariff_TV_row (th r0)) rows r); [|done| |done].
        { intros r' Hr'. apply process_tariff_TV_row_unregistered.
          intros c name num E Ep. eapply Hn; [exact Hk| |exact E|exact Ep].
          by right. }
        { by apply tv_label_aborts. }
Qed.

(** *** Keys of the registry *)

Lemma parse_bundle_name label name num :
  parse_bundle label = Some (name, num) -> ~ has_digit_group name.
Proof.
  unfold parse_bundle. rewrite search_bundle_start.
  destruct (matches pat_bundle label []) as [|[rest g] l] eqn:E; [done|].
  cbn [mbind option_bind m_groupdict].
  destruct (bundle_matches_name _ _ _ _ E) as (w & Hw & Hn). rewrite Hw.
  cbn [mbind option_bind].
  destruct (lookup_group "num" g); [|done]. cbn [mbind option_bind].
  destruct (parsed _); [|done]. cbn [mbind option_bind].
  by intros [= <- _].
Qed.

Lemma keys_plain_init : keys_plain init.
Proof. intros k v H. cbn in H. by rewrite lookup_empty in H. Qed.

Lemma process_tariff_row_keys r :
  preserves keys_plain (process_tariff_row r) keys_plain.
Proof.
  intros s [] s' Hs (rec & _ & ->)%process_tariff_row_ok. done.
Qed.

Lemma process_tariff_TV_row_keys heads r :
  preserves keys_plain (process_tariff_TV_row heads r) keys_plain.
Proof.
  intros s [] s' Hs H.
  apply process_tariff_TV_row_ok in H
    as (c0 & ch & rep & reg' & recs & E0 & Hres & _ & ->).
  intros k v. rewrite registry_emit_all. cbn [count_tariff_channel with_registry].
  unfold resolve in Hres.
  destruct (count_tariff_channel s !! strip c0);
    [injection Hres as <- <- <-; apply Hs|].
  destruct (parse_bundle (strip c0)) as [[name num]|] eqn:Ep; [|done].
  cbn [mbind option_bind] in Hres. injection Hres as <- <- <-.
  destruct (decide (name = k)) as [<-|Hne].
  - intros _. by eapply parse_bundle_name.
  - rewrite lookup_insert_ne by done. apply Hs.
Qed.

Lemma process_table_keys t : preserves keys_plain (process_table t) keys_plain.
Proof.
  destruct t as [|r0 rows]; [by intros s a s' _ [=]|].
  intros s a s' Hs. rewrite process_table_cons.
  destruct (found lit_tariff (united r0)).
  - apply for_each_preserves; [|done]. intros; apply process_tariff_row_keys.
  - destruct (found lit_internet (united r0)).
    + apply for_each_preserves; [|done].
      intros; apply process_tariff_TV_row_keys.
    + by intros [= <- <-].
Qed.

(** Wherever a bundle row is reached, a label with a parenthesized digit
    group is not a key. *)
Lemma digit_group_unregistered d heads rows o0 o label :
  for_each process_table d init = (inr tt, o0) ->
  for_each (process_tariff_TV_row heads) rows o0 = (inr tt, o) ->
  has_digit_group label -> unregistered label o.
Proof.
  intros Hd Hrows Hl.
  assert (Hk : keys_plain o).
  { eapply (for_each_preserves keys_plain); [|  |exact Hrows].
    - intros; apply process_tariff_TV_row_keys.
    - eapply (for_each_preserves keys_plain); [|apply keys_plain_init|exact Hd].
      intros; apply process_table_keys. }
  unfold unregistered.
  destruct (count_tariff_channel o !! label) as [v|] eqn:E; [|done].
  by destruct (Hk _ _ E).
Qed.

End AbortFacts.

(** ** The public methods *)

Section ParserFacts.

Lemma DataRialcom_process_data_run d st :
  DataRialcom_process_data d st
  = match for_each process_table d st with
    | (inr _, o) => (inr (output o), o)
    | (inl e, o) => (inl e, o)
    end.
Proof.
  unfold DataRialcom_process_data. rewrite bind_run.
  by destruct (for_each process_table d st) as [[e|[]] o].
Qed.

Lemma ParserRialcom_process_data_run p :
  ParserRialcom_process_data p = (fst (DataRialcom_process_data (data p) init), p).
Proof.
  unfold ParserRialcom_process_data, DataRialcom_process_data_method,
    on_attrs, DataRialcom_init. cbn [data attrs].
  by destruct (DataRialcom_process_data (data p) init).
Qed.

Lemma fill_dict_output {St} (c0 c1 c2 c3 : list value) (s : St) :
  fill_dict [c0; c1; c2; c3] (seq 0 (length headers)) [] s
  = (inr [ (u "Название тарифа", c0); (u "Количество каналов", c1);
           (u "Скорость доступа", c2); (u "Абонентская плата", c3) ], s).
Proof. vm_compute. reflexivity. Qed.

Lemma rows_of_columns (ns : list text) (cs : list value) (ss ps : list Z) :
  length cs = length ns -> length ss = length ns -> length ps = length ns ->
  (fun j => omap (fun c : list value => c !! j)
                 [VStr <$> ns; cs; VInt <$> ss; VInt <$> ps])
    <$> seq 0 (length ns)
  = row_of <$> zip_with (fun '(n, c) '(s, p) =>
                           {| r_name := n; r_channels := c;
                              r_speed := s; r_payment := p |})
                        (zip ns cs) (zip ss ps).
Proof.
  revert cs ss ps.
  induction ns as [|n ns IH]; intros [|c cs] [|s ss] [|p ps]; try done.
  cbn [length]. intros [= Hc] [= Hs] [= Hp].
  cbn [seq fmap list_fmap zip zip_with]. f_equal.
  rewrite <- (IH cs ss ps Hc Hs Hp), <- fmap_S_seq, <- list_fmap_compose.
  by apply list_fmap_ext.
Qed.

Lemma records_length o : balanced o -> length (records o) = length (names o).
Proof.
  intros (H1 & H2 & H3). unfold records.
  rewrite length_zip_with, !length_zip. lia.
Qed.

(** What [save_data] writes once the four lists are in. *)
Lemma save_data_run name p :
  ParserRialcom_save_data name p
  = match for_each process_table (data p) init with
    | (inr _, o) =>
      if same_lengths (output o)
      then (inr {| xlsx_path := name ++ u ".xlsx";
                   xlsx_header := headers;
                   xlsx_rows :=
                     (fun j => omap (fun c : list value => c !! j) (output o))
                       <$> seq 0 (length (names o)) |}, p)
      else (inl (ValueError ArrayLengths), p)
    | (inl e, _) => (inl e, p)
    end.
Proof.
  unfold ParserRialcom_save_data.
  rewrite bind_run, ParserRialcom_process_data_run, DataRialcom_process_data_run.
  destruct (for_each process_table (data p) init) as [[e|[]] o]; [done|].
  cbn [fst]. unfold output. rewrite bind_run, fill_dict_output.
  rewrite bind_run. unfold DataFrame.
  cbn [fmap list_fmap snd fst].
  destruct (same_lengths _); [|done].
  unfold mret, M_ret, to_excel. cbn [frame_columns frame_rows].
  change (default [] (head _)) with (VStr <$> names o).
  by rewrite length_fmap.
Qed.

Lemma same_lengths_output o : balanced o -> same_lengths (output o) = true.
Proof.
  intros (H1 & H2 & H3). unfold same_lengths, output.
  cbn [forallb]. rewrite !length_fmap, H1, H2, H3.
  by rewrite Nat.eqb_refl.
Qed.

Lemma save_data_ok name p o :
  for_each process_table (data p) init = (inr tt, o) ->
  ParserRialcom_save_data name p
  = (inr {| xlsx_path := name ++ u ".xlsx";
            xlsx_header := headers;
            xlsx_rows := row_of <$> records o |}, p).
Proof.
  intros H. rewrite save_data_run, H.
  assert (Hb : balanced o).
  { eapply process_tables_balanced; [apply balanced_init|exact H]. }
  rewrite same_lengths_output by done.
  destruct Hb as (H1 & H2 & H3).
  unfold output. by rewrite rows_of_columns.
Qed.

Lemma run_calls_independent cs p :
  fst (run_calls cs p) = independent_answers cs (data p)
  /\ attrs (snd (run_calls cs p)) = attrs p.
Proof.
  revert p. induction cs as [|[d|] cs IH]; intros p; [done| |].
  - cbn [run_calls independent_answers].
    destruct (IH (snd (ParserRialcom_load_data d p))) as [-> ->]. done.
  - cbn [run_calls independent_answers].
    rewrite ParserRialcom_process_data_run.
    destruct (IH p) as [H1 H2].
    destruct (run_calls cs p) as [rs p'']. cbn in *. by rewrite H1.
Qed.

End ParserFacts.

(** * The claims of the specification *)

Lemma ends_with_drop suffix s :
  ends_with suffix s -> drop (length s - length suffix) s = suffix.
Proof.
  intros [before ->]. rewrite length_app.
  replace (length before + length suffix - length suffix)%nat
    with (length before) by lia.
  apply drop_app_length.
Qed.

Lemma repeat_suffix name : ends_with (u "TB_ч") (name ++ suffix_repeat).
Proof. exists (name ++ u " + "). by rewrite <- app_assoc. Qed.

(** ** Bundle rows *)

(** The same full label in two bundle tables: both rows are parsed, both
    get the suffix [TB]. *)
Example page_twice_run :
  exists o,
    for_each process_table page_twice init = (inr tt, o)
    /\ r_name <$> records o
       = cells [ "Комфорт (120 каналов) + РиалКом Интернет 50 + TB";
                 "Комфорт (120 каналов) + РиалКом Интернет 100 + TB";
                 "Комфорт (120 каналов) + РиалКом Интернет 50 + TB";
                 "Комфорт (120 каналов) + РиалКом Интернет 100 + TB" ]%string
    /\ r_channels <$> records o = [VInt 120; VInt 120; VInt 120; VInt 120]
    /\ count_tariff_channel o = {[ u "Комфорт" := 120 ]}.
Proof.
  eexists. split; [vm_compute; reflexivity|].
  repeat split; vm_compute; reflexivity.
Qed.

(** C1, as stated, fails: the second table of [page_twice] repeats the
    label "Комфорт (120 каналов)" of the first, and its first record
    (record 2 of the page) is named "... + TB", which does not end in
    "TB_ч". The registry is keyed by the base name "Комфорт", so the
    full label is never found in it. *)
Lemma same_label_twice_not_repeat :
  exists o name,
    for_each process_table page_twice init = (inr tt, o)
    /\ names o !! 2%nat = Some name
    /\ name = u "Комфорт (120 каналов) + РиалКом Интернет 50 + TB"
    /\ ~ ends_with (u "TB_ч") name
    /\ count_tariff_channel o !! u "Комфорт (120 каналов)" = None.
Proof.
  eexists. eexists. split; [vm_compute; reflexivity|].
  split; [vm_compute; reflexivity|]. split; [reflexivity|].
  split; [|vm_compute; reflexivity].
  intros H%ends_with_drop. vm_compute in H. discriminate.
Qed.

(** C1, amended: the channel registry is keyed by the base name that a
    first-seen label parses to (part 1). A bundle row whose stripped
    label is a key of the registry is not parsed: it is written with the
    stored channel count as a repeat bundle, so every record it produces
    has a name ending in "TB_ч" and that channel count, and the registry
    stays as it was (part 2). A label with a parenthesized digit group is
    never a key, wherever in a page its row is reached; so a second
    occurrence of a label that was parsed before is parsed again and
    written as a first-seen bundle, with the suffix " + TB" (part 3). *)
Theorem repeat_bundle_row :
  (forall heads r c0 name num st st',
     td r !! 0%nat = Some c0 ->
     count_tariff_channel st !! strip c0 = None ->
     parse_bundle (strip c0) = Some (name, num) ->
     process_tariff_TV_row heads r st = (inr tt, st') ->
     count_tariff_channel st' !! name = Some num)
  /\ (forall heads r c0 channel st,
        td r !! 0%nat = Some c0 ->
        count_tariff_channel st !! strip c0 = Some channel ->
        process_tariff_TV_row heads r st
        = wrtite_tariff_TV heads (td r) channel true (strip c0) st
        /\ forall st',
             process_tariff_TV_row heads r st = (inr tt, st') ->
             exists recs,
               st' = emit_all st recs
               /\ length recs = (length heads - 1)%nat
               /\ Forall (fun rec => ends_with (u "TB_ч") (r_name rec)
                                     /\ r_channels rec = VInt channel) recs)
  /\ (forall d heads rows o0 o r c0,
        for_each process_table d init = (inr tt, o0) ->
        for_each (process_tariff_TV_row heads) rows o0 = (inr tt, o) ->
        td r !! 0%nat = Some c0 ->
        has_digit_group (strip c0) ->
        count_tariff_channel o !! strip c0 = None
        /\ forall o',
             process_tariff_TV_row heads r o = (inr tt, o') ->
             exists recs,
               names o' = names o ++ (r_name <$> recs)
               /\ Forall (fun rec =>
                            r_name rec
                            = strip c0 ++ connector ++ str_of_int (r_speed rec)
                                ++ suffix_first) recs).
Proof.
  split; [|split].
  - intros heads r c0 name num st st' E0 Ereg Ep H.
    rewrite (process_tariff_TV_row_first _ _ _ _ _ _ E0 Ereg Ep) in H.
    apply wrtite_tariff_TV_ok in H as (recs & _ & ->).
    rewrite registry_emit_all. cbn. apply lookup_insert_eq.
  - intros heads r c0 channel st E0 Ereg.
    pose proof (process_tariff_TV_row_repeat heads _ _ _ _ E0 Ereg) as Hrun.
    split; [done|]. intros st' H. rewrite Hrun in H.
    apply wrtite_tariff_TV_ok in H as (recs & Hrecs & ->).
    exists recs. split; [done|]. split.
    + rewrite (mapM_length _ _ _ Hrecs). apply length_seq.
    + eapply mapM_Forall; [|exact Hrecs]. cbn beta.
      intros i rec [Hc Hn]%tv_col_record_fields.
      split; [|done]. rewrite Hn, !app_assoc. apply repeat_suffix.
  - intros d heads rows o0 o r c0 Hd Hrows E0 Hg.
    pose proof (digit_group_unregistered _ _ _ _ _ _ Hd Hrows Hg) as Ereg.
    split; [done|]. intros o' H.
    apply process_tariff_TV_row_ok in H
      as (c & ch & rep & reg' & recs & E & Hres & Hrecs & ->).
    rewrite E0 in E. injection E as <-.
    unfold resolve in Hres. unfold unregistered in Ereg. rewrite Ereg in Hres.
    destruct (parse_bundle (strip c0)) as [[name num]|]; [|done].
    cbn [mbind option_bind] in Hres. injection Hres as <- <- <-.
    exists recs. split; [by rewrite names_emit_all|].
    eapply mapM_Forall; [|exact Hrecs]. cbn beta.
    by intros i rec [_ Hn]%tv_col_record_fields.
Qed.

(** The row "Комфорт (120 каналов)" registers "Комфорт"; a later row
    labelled "Комфорт" is the repeat. *)
Lemma repeat_bundle_row_witness :
  count_tariff_channel
    (snd (process_tariff_TV_row (th hdr_tv) row_comfort init)) !! u "Комфорт"
  = Some 120
  /\ (let st := with_registry init {[ u "Комфорт" := 120 ]} in
      process_tariff_TV_row (th hdr_tv) row_comfort_base st
      = wrtite_tariff_TV (th hdr_tv) (td row_comfort_base) 120 true
          (u "Комфорт") st).
Proof.
  split.
  - apply (proj1 repeat_bundle_row (th hdr_tv) row_comfort
             (u "Комфорт (120 каналов)") (u "Комфорт") 120 init).
    + reflexivity.
    + vm_compute. reflexivity.
    + vm_compute. reflexivity.
    + vm_compute. reflexivity.
  - apply (proj1 (proj2 repeat_bundle_row)
             (th hdr_tv) row_comfort_base (u "Комфорт")).
    + reflexivity.
    + vm_compute. reflexivity.
Defined.

(** C2: a bundle row returns exactly when its label resolves to a channel
    count (from the registry: repeat bundle; parsed from the label:
    first-seen bundle) and every header column [i = 1 ..] has a record
    [tv_col_record]: speed from the first digit run of header cell [i],
    payment from the text of data cell [i], surrounding whitespace
    stripped, read as an integer, the row's channel
    count, and the name made of the label, " + РиалКом Интернет ", the
    speed and " + TB_ч" or " + TB". It then appends exactly these
    records, one per header column after the first, in order. *)
Theorem bundle_row_records heads r st st' :
  process_tariff_TV_row heads r st = (inr tt, st')
  <-> exists c0 channel repeat reg' recs,
        td r !! 0%nat = Some c0
        /\ resolve (count_tariff_channel st) (strip c0)
             = Some (channel, repeat, reg')
        /\ mapM (tv_col_record heads (td r) channel repeat (strip c0))
                (seq 1 (length heads - 1)) = Some recs
        /\ length recs = (length heads - 1)%nat
        /\ st' = emit_all (with_registry st reg') recs.
Proof.
  rewrite process_tariff_TV_row_ok. split.
  - intros (c0 & ch & rep & reg' & recs & E0 & Hres & Hrecs & ->).
    exists c0, ch, rep, reg', recs. repeat split; try done.
    rewrite (mapM_length _ _ _ Hrecs). apply length_seq.
  - intros (c0 & ch & rep & reg' & recs & E0 & Hres & Hrecs & _ & ->).
    by exists c0, ch, rep, reg', recs.
Qed.

(** The bundle "Комфорт (120 каналов)" under the speed columns 50 and 100
    with payments 600 and 800. *)
Lemma bundle_row_records_witness :
  process_tariff_TV_row (th hdr_tv) row_comfort init
  = (inr tt,
     emit_all (with_registry init {[ u "Комфорт" := 120 ]})
       [ {| r_name := u "Комфорт (120 каналов) + РиалКом Интернет 50 + TB";
            r_channels := VInt 120; r_speed := 50; r_payment := 600 |};
         {| r_name := u "Комфорт (120 каналов) + РиалКом Интернет 100 + TB";
            r_channels := VInt 120; r_speed := 100; r_payment := 800 |} ]).
Proof.
  apply (proj2 (bundle_row_records (th hdr_tv) row_comfort init _)).
  exists (u "Комфорт (120 каналов)"), 120, false, {[ u "Комфорт" := 120 ]}.
  eexists. split; [reflexivity|].
  split; [vm_compute; reflexivity|].
  split; [vm_compute; reflexivity|].
  split; reflexivity.
Defined.

(** ** Plain-tariff rows *)

Lemma plain_row_record_fields r rec :
  plain_row_record r = Some rec ->
  exists c0 c1 c3 ds n token,
    td r !! 0%nat = Some c0 /\ td r !! 1%nat = Some c1
    /\ td r !! 3%nat = Some c3
    /\ r_name rec = strip c0
    /\ r_channels rec = null
    /\ first_digit_run c3 = Some ds /\ int_of_str ds = Parsed n
    /\ speed_of n = Some (r_speed rec)
    /\ first_token c1 = Some token
    /\ int_of_str token = Parsed (r_payment rec).
Proof.
  unfold plain_row_record. intros H.
  destruct (td r !! 0%nat) as [c0|] eqn:E0; [|done]. cbn [mbind option_bind] in H.
  destruct (td r !! 3%nat) as [c3|] eqn:E3; [|done]. cbn [mbind option_bind] in H.
  destruct (first_digit_run c3) as [ds|] eqn:Eds; [|done]. cbn [mbind option_bind] in H.
  destruct (int_of_str ds) as [n| |] eqn:En; [|done..].
  cbn [mbind option_bind parsed] in H.
  destruct (speed_of n) as [speed|] eqn:Esp; [|done].
  cbn [mbind option_bind] in H.
  destruct (td r !! 1%nat) as [c1|] eqn:E1; [|done]. cbn [mbind option_bind] in H.
  destruct (first_token c1) as [token|] eqn:Etok; [|done]. cbn [mbind option_bind] in H.
  destruct (int_of_str token) as [payment| |] eqn:Epay; [|done..].
  cbn [mbind option_bind parsed] in H. injection H as <-.
  exists c0, c1, c3, ds, n, token. by repeat split.
Qed.

Lemma decimal_value_nonneg c d : decimal_value c = Some d -> 0 <= d.
Proof.
  unfold decimal_value. generalize decimal_zeros.
  intros zs. induction zs as [|z zs IH]; cbn [decimal_in]; [done|].
  destruct ((z <=? c) && (c <? z + 10)) eqn:E; [|done].
  intros [= <-]. lia.
Qed.

(** A number read by [int] from digits alone is not negative. *)
Lemma int_body_nonneg s prev acc nd v nd' :
  0 <= acc -> int_body s prev acc nd = Some (v, nd') -> 0 <= v.
Proof.
  revert prev acc nd.
  induction s as [|c s IH]; intros prev acc nd Hacc; cbn [int_body].
  - destruct prev; [|done]. by intros [= <- _].
  - destruct (decimal_value c) as [d|] eqn:Ed.
    + apply IH. apply decimal_value_nonneg in Ed. lia.
    + destruct ((c =? 95) && prev); [|done]. by apply IH.
Qed.

Lemma digit_run_head s ds :
  first_digit_run s = Some ds -> exists d ds', ds = d :: ds' /\ is_digit d = true.
Proof.
  unfold first_digit_run.
  destruct (drop_while_split (fun c => negb (is_digit c)) s) as [w [_ _]].
  pose proof (drop_while_idem (fun c => negb (is_digit c)) s) as Hid.
  destruct (drop_while _ s) as [|d s1]; [done|].
  intros [= <-]. cbn in Hid. cbn.
  destruct (is_digit d) eqn:Ed.
  - destruct (span is_digit s1). cbn. eauto.
  - exfalso. cbn in Hid. apply (f_equal length) in Hid.
    destruct (drop_while_split (fun c => negb (is_digit c)) s1) as [w' [Hs1 _]].
    apply (f_equal length) in Hs1. rewrite length_app in Hs1. cbn in Hid. lia.
Qed.

Lemma digit_run_nonneg s ds n :
  first_digit_run s = Some ds -> int_of_str ds = Parsed n -> 0 <= n.
Proof.
  intros Hrun Hint.
  destruct (digit_run_head _ _ Hrun) as (d & ds' & -> & Hd).
  unfold int_of_str in Hint.
  destruct (int_trim_digit d ds' Hd) as [r Hr]. rewrite Hr in Hint.
  assert (d <> 45 /\ d <> 43) as [H45 H43].
  { split; intros ->; by vm_compute in Hd. }
  rewrite (proj2 (Z.eqb_neq d 45) H45), (proj2 (Z.eqb_neq d 43) H43) in Hint.
  destruct (int_body (d :: r) false 0 0) as [[v nd]|] eqn:Eb; [|done].
  destruct (nd <=? int_max_str_digits)%nat; [|done].
  injection Hint as <-. by eapply int_body_nonneg; [|exact Eb].
Qed.

(** The sample row of the specification: its speed is 0, because the
    digit run "30" is divided by 1000. *)
Example row_start_run :
  process_tariff_row row_start init
  = (inr tt, emit init {| r_name := u "Старт"; r_channels := null;
                          r_speed := 0; r_payment := 350 |}).
Proof. vm_compute. reflexivity. Qed.

(** C3, as stated, fails twice. Its own example row yields speed 0, not
    30. And the division is a float division: for the digit run
    17592186044416999 the quotient 17592186044416.999 rounds to the float
    17592186044417.0, one more than the truncating integer quotient. *)
Lemma plain_row_speed_not_quotient :
  (exists o, process_tariff_row row_start init = (inr tt, o)
             /\ speeds o = [0] /\ payments o = [350]
             /\ names o = [u "Старт"] /\ channels o = [null])
  /\ speed_of 17592186044416999 = Some 17592186044417
  /\ Z.quot 17592186044416999 1000 = 17592186044416.
Proof.
  split; [|split; vm_compute; reflexivity].
  eexists. split; [vm_compute; reflexivity|].
  repeat split; vm_compute; reflexivity.
Qed.

(** C3, amended: the rows after the header row of a plain-tariff table are
    processed without error exactly when each has a record
    [plain_row_record], and then these records are appended in row order
    (part 1). The record has the stripped text of cell 0 as name, 'null'
    as channels, the first whitespace-delimited token of cell 1 read as
    an integer as payment, and as speed [int(n / 1000)] for the value [n]
    of the first digit run of cell 3: the binary64 quotient, truncated.
    [n] is never negative, and for [n] below 2^44 * 1000 the speed is the
    truncating integer quotient of [n] by 1000 (part 2). *)
Theorem plain_rows_records :
  (forall rows st st',
     process_tariff rows st = (inr tt, st')
     <-> exists recs, mapM plain_row_record (drop 1 rows) = Some recs
                      /\ st' = emit_all st recs)
  /\ (forall r rec,
        plain_row_record r = Some rec ->
        exists c0 c1 c3 ds n token,
          td r !! 0%nat = Some c0 /\ td r !! 1%nat = Some c1
          /\ td r !! 3%nat = Some c3
          /\ r_name rec = strip c0
          /\ r_channels rec = null
          /\ first_digit_run c3 = Some ds /\ int_of_str ds = Parsed n
          /\ speed_of n = Some (r_speed rec)
          /\ 0 <= n
          /\ (n < exact_bound -> r_speed rec = Z.quot n 1000)
          /\ first_token c1 = Some token
          /\ int_of_str token = Parsed (r_payment rec)).
Proof.
  split; [apply process_tariff_ok|].
  intros r rec H.
  destruct (plain_row_record_fields r rec H)
    as (c0 & c1 & c3 & ds & n & token & E0 & E1 & E3 & Hn & Hc & Hds & Hint
        & Hsp & Htok & Hpay).
  pose proof (digit_run_nonneg _ _ _ Hds Hint) as Hpos.
  exists c0, c1, c3, ds, n, token. repeat split; try done.
  intros Hb. rewrite speed_of_exact in Hsp by done. by injection Hsp.
Qed.

(** A row whose cell 3 reads "1500" has speed 1. *)
Lemma plain_rows_records_witness :
  process_tariff [hdr_plain; row_1500] init
  = (inr tt, emit_all init [ {| r_name := u "Дом"; r_channels := null;
                                r_speed := 1; r_payment := 500 |} ])
  /\ (forall rec, plain_row_record row_1500 = Some rec ->
        r_speed rec = Z.quot 1500 1000).
Proof.
  split.
  - apply (proj1 plain_rows_records [hdr_plain; row_1500] init).
    eexists. split; [vm_compute; reflexivity|reflexivity].
  - intros rec Hrec.
    destruct (proj2 plain_rows_records row_1500 rec Hrec)
      as (c0 & c1 & c3 & ds & n & token & _ & _ & E3 & _ & _ & Hds & Hint
          & _ & _ & Hq & _).
    injection E3 as <-.
    assert (ds = u "1500") as ->
      by (vm_compute in Hds; injection Hds as <-; reflexivity).
    assert (n = 1500) as ->
      by (vm_compute in Hint; injection Hint as <-; reflexivity).
    apply Hq. reflexivity.
Defined.

(** ** Tables *)

(** C4: a table with a first row is classified by the header cell texts of
    that row joined with single spaces. If ["тариф"] occurs in the
    joined text the table is processed as a plain-tariff table, whether or
    not ["Интернет"] occurs too; otherwise, if ["Интернет"] occurs, as a
    bundle table; otherwise processing the table returns at once and
    leaves the object as it was. Occurrence is of the exact code points. *)
Theorem table_classification r0 rows st :
  (substring lit_tariff (join (u " ") (th r0)) ->
   process_table (r0 :: rows) st = process_tariff (r0 :: rows) st)
  /\ (~ substring lit_tariff (join (u " ") (th r0)) ->
      substring lit_internet (join (u " ") (th r0)) ->
      process_table (r0 :: rows) st
      = process_tariff_TV (r0 :: rows) (th r0) st)
  /\ (~ substring lit_tariff (join (u " ") (th r0)) ->
      ~ substring lit_internet (join (u " ") (th r0)) ->
      process_table (r0 :: rows) st = (inr tt, st)).
Proof.
  rewrite process_table_cons. fold (united r0).
  pose proof (found_substring lit_tariff (united r0) lit_tariff_nonempty) as Ht.
  pose proof (found_substring lit_internet (united r0) lit_internet_nonempty)
    as Hi.
  destruct Ht as [Ht1 Ht2], Hi as [Hi1 Hi2].
  destruct (found lit_tariff (united r0)).
  - split; [done|]. split; intros H; destruct H; auto.
  - destruct (found lit_internet (united r0)).
    + split; [intros H; by apply Ht2 in H|]. split; [done|].
      intros _ H. destruct H. auto.
    + split; [intros H; by apply Ht2 in H|]. split; [|done].
      intros _ H. by apply Hi2 in H.
Qed.

Lemma not_substring (pattern s : text) :
  pattern <> [] -> found pattern s = false -> ~ substring pattern s.
Proof.
  intros Hp Hf Hs. apply found_substring in Hs; [|done]. congruence.
Qed.

(** A heading with both words is a plain-tariff table; one with
    "Интернет" only is a bundle table; "Тариф" with a capital letter is
    neither. *)
Lemma table_classification_witness :
  process_table [hdr_both; row_start] init
  = process_tariff [hdr_both; row_start] init
  /\ process_table [hdr_tv; row_comfort] init
     = process_tariff_TV [hdr_tv; row_comfort] (th hdr_tv) init
  /\ process_table [hdr_other; row_start] init = (inr tt, init).
Proof.
  split; [|split].
  - apply (proj1 (table_classification hdr_both [row_start] init)).
    exists (u "Интернет "), (u " Абонентская плата Период Скорость").
    reflexivity.
  - apply (proj1 (proj2 (table_classification hdr_tv [row_comfort] init))).
    + apply not_substring; [done|]. vm_compute. reflexivity.
    + exists (u "Пакет "), (u " 50 Мбит/с Интернет 100 Мбит/с").
      reflexivity.
  - apply (proj2 (proj2 (table_classification hdr_other [row_start] init))).
    + apply not_substring; [done|]. vm_compute. reflexivity.
    + apply not_substring; [done|]. vm_compute. reflexivity.
Defined.

(** C5: the four output lists have one length in the new object, and
    whenever they have one length before a record is written, a row is
    processed or a table is processed, they have one length after it. So
    they have one length after the tables of any page, hence after any
    initial part of a page. *)
Theorem four_lists_one_length :
  balanced init
  /\ (forall heads columns channel is_tariff tariff i,
        preserves balanced
          (wrtite_tariff_TV_col heads columns channel is_tariff tariff i)
          balanced)
  /\ (forall r, preserves balanced (process_tariff_row r) balanced)
  /\ (forall heads r,
        preserves balanced (process_tariff_TV_row heads r) balanced)
  /\ (forall t, preserves balanced (process_table t) balanced)
  /\ (forall d o, for_each process_table d init = (inr tt, o) -> balanced o).
Proof.
  split; [apply balanced_init|].
  split; [apply wrtite_tariff_TV_col_balanced|].
  split; [apply process_tariff_row_balanced|].
  split; [apply process_tariff_TV_row_balanced|].
  split; [apply process_table_balanced|].
  intros d o H. eapply process_tables_balanced; [apply balanced_init|exact H].
Qed.

(** A row that raises half-way leaves what it had appended: the call is
    over then, and the lists are not returned. *)
Example raise_leaves_lists_uneven :
  exists o,
    process_tariff_row row_no_speed init = (inl (AttributeError "group"), o)
    /\ length (names o) = 1%nat /\ length (speeds o) = 0%nat.
Proof. eexists. split; [vm_compute; reflexivity|]. split; reflexivity. Qed.

(** After the three tables of [page_mixed] the lists hold three entries
    each. *)
Lemma four_lists_one_length_witness :
  balanced (snd (for_each process_table page_mixed init))
  /\ length (names (snd (for_each process_table page_mixed init))) = 3%nat.
Proof.
  split.
  - apply (proj2 (proj2 (proj2 (proj2 (proj2 four_lists_one_length))))
             page_mixed).
    vm_compute. reflexivity.
  - vm_compute. reflexivity.
Defined.



(** ** Errors *)

Example no_speed_run :
  fst (ParserRialcom_process_data
         (ParserRialcom_init [[hdr_plain; row_start; row_no_speed]]))
  = inl (AttributeError "group").
Proof. vm_compute. reflexivity. Qed.

Example no_digit_group_run :
  fst (ParserRialcom_process_data
         (ParserRialcom_init
            [[hdr_tv; data_row ["Комфорт"; "600"; "800"]%string]]))
  = inl (AttributeError "groupdict").
Proof. vm_compute. reflexivity. Qed.

Lemma malformed_ask_1 : malformed_at page_ask_1 0 0.
Proof.
  exists hdr_tv, [row_ask_1], row_ask_1.
  split; [reflexivity|]. split; [reflexivity|]. right.
  split; [vm_compute; reflexivity|]. split; [vm_compute; reflexivity|].
  apply (tv_bad_payment _ _ _ 1%nat (u "уточнить")).
  - cbn. lia.
  - reflexivity.
  - vm_compute. reflexivity.
Qed.

Lemma malformed_ask_2 : malformed_at page_ask_2 1 1.
Proof.
  exists hdr_tv, [row_basic; row_ask_2], row_ask_2.
  split; [reflexivity|]. split; [reflexivity|]. right.
  split; [vm_compute; reflexivity|]. split; [vm_compute; reflexivity|].
  apply (tv_bad_payment _ _ _ 2%nat (u "уточнить")).
  - cbn. lia.
  - reflexivity.
  - vm_compute. reflexivity.
Qed.

(** C6, as stated, fails: the payment "уточнить" in table 0, data row 0,
    column 1 of one page and in table 1, data row 1, column 2 of another
    page end the call with the same exception, a [ValueError] whose only
    content is the literal. The exception names no table, row or field. *)
Lemma error_carries_no_location :
  exists e,
    e = ValueError (InvalidLiteral (u "уточнить"))
    /\ malformed_at page_ask_1 0 0
    /\ fst (ParserRialcom_process_data (ParserRialcom_init page_ask_1)) = inl e
    /\ malformed_at page_ask_2 1 1
    /\ fst (ParserRialcom_process_data (ParserRialcom_init page_ask_2)) = inl e.
Proof.
  eexists. split; [reflexivity|].
  split; [apply malformed_ask_1|]. split; [vm_compute; reflexivity|].
  split; [apply malformed_ask_2|]. vm_compute. reflexivity.
Qed.

(** C6, amended: if a data row of a table that is processed has a
    malformed cell (plain tariff: cell 3 without a digit run, or a first
    token of cell 1 that is no integer literal; bundle: a header cell
    after the first without a digit run, a payment cell under such a
    header cell that is no integer literal, or a label without a
    parenthesized digit group that no label of the page registers as its
    base name), then [process_data] raises one of Python's built-in
    exceptions, which carry no table index, row index or field; it
    returns no records, and [save_data] raises the same way and writes no
    file. *)
Theorem malformed_cell_aborts p k j name :
  malformed_at (data p) k j ->
  exists e,
    ParserRialcom_process_data p = (inl e, p)
    /\ ParserRialcom_save_data name p = (inl e, p).
Proof.
  intros (e & s' & H)%malformed_aborts.
  exists e. split.
  - by rewrite ParserRialcom_process_data_run, DataRialcom_process_data_run, H.
  - by rewrite save_data_run, H.
Qed.

Lemma malformed_cell_aborts_witness :
  exists e,
    ParserRialcom_process_data (ParserRialcom_init page_ask_2)
    = (inl e, ParserRialcom_init page_ask_2)
    /\ ParserRialcom_save_data default_name (ParserRialcom_init page_ask_2)
       = (inl e, ParserRialcom_init page_ask_2).
Proof.
  apply (malformed_cell_aborts (ParserRialcom_init page_ask_2) 1 1).
  exists hdr_tv, [row_basic; row_ask_2], row_ask_2.
  split; [reflexivity|]. split; [reflexivity|]. right.
  split; [vm_compute; reflexivity|]. split; [vm_compute; reflexivity|].
  apply (tv_bad_payment _ _ _ 2%nat (u "уточнить")).
  - cbn. lia.
  - reflexivity.
  - vm_compute. reflexivity.
Defined.

(** C10: processing a table without rows raises [IndexError] on
    [rows[0]] and changes nothing; a page with such a table makes
    [process_data] raise, with [IndexError] if the tables before it were
    processed without error; and a table whose processing returns has a
    first row. *)
Theorem empty_table_raises :
  (forall st, process_table [] st = (inl IndexError, st))
  /\ (forall p, In [] (data p) ->
        exists e, ParserRialcom_process_data p = (inl e, p))
  /\ (forall p d1 d2 o,
        data p = d1 ++ [] :: d2 ->
        for_each process_table d1 init = (inr tt, o) ->
        ParserRialcom_process_data p = (inl IndexError, p))
  /\ (forall t st a st', process_table t st = (inr a, st') -> t <> []).
Proof.
  split; [done|]. split; [|split].
  - intros p Hin.
    destruct (for_each_aborts (fun _ => True) process_table (data p) [])
      with (s := init) as (e & s' & H); try done.
    { intros s _. by exists IndexError, s. }
    exists e.
    by rewrite ParserRialcom_process_data_run, DataRialcom_process_data_run, H.
  - intros p d1 d2 o Hd H.
    rewrite ParserRialcom_process_data_run, DataRialcom_process_data_run, Hd.
    by rewrite (for_each_first_raise _ _ _ _ _ _ IndexError o H).
  - by intros [|r0 rows] st a st' H.
Qed.

Lemma empty_table_raises_witness :
  ParserRialcom_process_data (ParserRialcom_init [[hdr_plain; row_1500]; []])
  = (inl IndexError, ParserRialcom_init [[hdr_plain; row_1500]; []]).
Proof.
  apply (proj1 (proj2 (proj2 empty_table_raises))
           (ParserRialcom_init [[hdr_plain; row_1500]; []])
           [[hdr_plain; row_1500]] []
           (snd (for_each process_table [[hdr_plain; row_1500]] init))).
  - reflexivity.
  - vm_compute. reflexivity.
Defined.

(** ** The public methods *)

(** C8: [ParserRialcom.process_data] does its work on a new object whose
    registry is empty and which is dropped on return. Whatever pages a
    client loads and however often it asks, each answer is the one a
    fresh object gives for the page loaded last, and the attributes of
    the parser object itself never change. *)
Theorem registry_per_call cs p :
  count_tariff_channel (attrs (DataRialcom_init (data p))) = ∅
  /\ ParserRialcom_process_data p
     = (fst (DataRialcom_process_data (data p) init), p)
  /\ fst (run_calls cs p) = independent_answers cs (data p)
  /\ attrs (snd (run_calls cs p)) = attrs p.
Proof.
  split; [done|]. split; [apply ParserRialcom_process_data_run|].
  apply run_calls_independent.
Qed.



(** * Further properties of the parser *)

(** ** What a call may do to the object, returning or raising *)

Section EffectFacts.

Context {St : Type} (R : St -> St -> Prop) `{!PreOrder R}.

Lemma effect_pure {A} (m : M St A) : (forall s, snd (m s) = s) -> effect R m.
Proof. intros H s. by rewrite H. Qed.

Lemma effect_bind {A B} (m : M St A) (f : A -> M St B) :
  effect R m -> (forall x, effect R (f x)) -> effect R (m ≫= f).
Proof.
  intros Hm Hf s. rewrite bind_run. specialize (Hm s).
  destruct (m s) as [[e|x] s1]; [done|].
  cbn [snd] in Hm. etrans; [exact Hm|apply Hf].
Qed.

Lemma effect_for_each {X} (body : X -> M St unit) xs :
  (forall x, effect R (body x)) -> effect R (for_each body xs).
Proof.
  intros Hb. induction xs as [|x xs IH]; [by apply effect_pure|].
  cbn [for_each]. apply effect_bind; [apply Hb|done].
Qed.

Lemma effect_modify (f : St -> St) :
  (forall s, R s (f s)) -> effect R (modify f).
Proof. intros H s. apply H. Qed.

End EffectFacts.

Section PureFacts.

Context {St : Type}.

Lemma pure_index {X} (xs : list X) i (s : St) : snd (index xs i s) = s.
Proof. rewrite index_run. by destruct (xs !! i). Qed.

Lemma pure_py_int t (s : St) : snd (py_int t s) = s.
Proof. rewrite py_int_run. by destruct (int_of_str t). Qed.

Lemma pure_int_truediv n d (s : St) : snd (int_truediv n d s) = s.
Proof. unfold int_truediv. by destruct (true_divide n d). Qed.

Lemma pure_search_group r t (s : St) : snd (search_group r t s) = s.
Proof. unfold search_group. by destruct (search r t). Qed.

Lemma pure_search_groupdict r t (s : St) : snd (search_groupdict r t s) = s.
Proof. unfold search_groupdict. by destruct (search r t). Qed.

Lemma pure_group_item d key (s : St) : snd (group_item d key s) = s.
Proof. unfold group_item. by destruct (lookup_group key d). Qed.

End PureFacts.

(** Splits a method body into its calls; the calls that leave the object
    alone are closed, the appends and the registry update are left. *)
Ltac effect_split :=
  repeat first
    [ apply effect_bind; [apply _| |intros ?]
    | progress cbv zeta
    | apply effect_for_each; [apply _|intros ?] ];
  try (apply effect_pure; [apply _|]; intros ?;
       first [ apply pure_index | apply pure_py_int | apply pure_int_truediv
             | apply pure_search_group | apply pure_search_groupdict
             | apply pure_group_item | reflexivity ]).

Section GrowthFacts.

Lemma extends_preorder : PreOrder extends.
Proof.
  split.
  - intros o. by repeat split.
  - intros o1 o2 o3 (H1 & H2 & H3 & H4) (K1 & K2 & K3 & K4).
    repeat split; by etrans.
Qed.

Lemma keeps_keys_preorder : PreOrder keeps_keys.
Proof. split; [by intros o k|]. intros o1 o2 o3 H K k Hk. auto. Qed.

Lemma same_registry_preorder : PreOrder same_registry.
Proof.
  split; [done|]. unfold same_registry. intros o1 o2 o3 H K. congruence.
Qed.

#[local] Existing Instances
  extends_preorder keeps_keys_preorder same_registry_preorder.

Lemma extends_append o o' :
  (exists x, names o' = names o ++ x) ->
  (exists x, channels o' = channels o ++ x) ->
  (exists x, speeds o' = speeds o ++ x) ->
  (exists x, payments o' = payments o ++ x) ->
  extends o o'.
Proof. intros. by repeat split. Qed.

Ltac appended :=
  intros ?; apply extends_append; cbn;
  first [ by eexists | exists []; by rewrite app_nil_r ].

Lemma process_tariff_row_extends r : effect extends (process_tariff_row r).
Proof.
  unfold process_tariff_row. effect_split; apply effect_modify; appended.
Qed.

Lemma wrtite_tariff_TV_extends heads columns channel is_tariff tariff :
  effect extends (wrtite_tariff_TV heads columns channel is_tariff tariff).
Proof.
  unfold wrtite_tariff_TV, wrtite_tariff_TV_col.
  effect_split; apply effect_modify; appended.
Qed.

Lemma process_tariff_TV_row_extends heads r :
  effect extends (process_tariff_TV_row heads r).
Proof.
  unfold process_tariff_TV_row. effect_split.
  match goal with |- context [count_tariff_channel ?o !! ?k] =>
    destruct (count_tariff_channel o !! k) end.
  - apply wrtite_tariff_TV_extends.
  - effect_split; apply effect_modify; appended.
Qed.

Lemma process_table_effect (R : obj -> obj -> Prop) `{!PreOrder R} t :
  (forall r, effect R (process_tariff_row r)) ->
  (forall heads r, effect R (process_tariff_TV_row heads r)) ->
  effect R (process_table t).
Proof.
  intros Hplain Htv. unfold process_table. effect_split.
  repeat match goal with |- context [if ?b then _ else _] => destruct b end.
  - by apply effect_for_each.
  - by apply effect_for_each.
  - by apply effect_pure.
Qed.

Lemma process_data_effect (R : obj -> obj -> Prop) `{!PreOrder R} d :
  (forall r, effect R (process_tariff_row r)) ->
  (forall heads r, effect R (process_tariff_TV_row heads r)) ->
  effect R (for_each process_table d) /\ effect R (DataRialcom_process_data d).
Proof.
  intros Hplain Htv.
  assert (effect R (for_each process_table d)).
  { apply effect_for_each; [apply _|]. intros t. by apply process_table_effect. }
  split; [done|]. unfold DataRialcom_process_data.
  apply effect_bind; [apply _|done|]. intros _. by apply effect_pure.
Qed.

Lemma process_tariff_row_same_registry r :
  effect same_registry (process_tariff_row r).
Proof.
  unfold process_tariff_row. effect_split; by apply effect_modify.
Qed.

Lemma wrtite_tariff_TV_same_registry heads columns channel is_tariff tariff :
  effect same_registry
    (wrtite_tariff_TV heads columns channel is_tariff tariff).
Proof.
  unfold wrtite_tariff_TV, wrtite_tariff_TV_col.
  effect_split; by apply effect_modify.
Qed.

Lemma same_registry_keeps o o' : same_registry o o' -> keeps_keys o o'.
Proof. intros H k. by rewrite H. Qed.

Lemma process_tariff_TV_row_keeps_keys heads r :
  effect keeps_keys (process_tariff_TV_row heads r).
Proof.
  unfold process_tariff_TV_row. effect_split.
  match goal with |- context [count_tariff_channel ?o !! ?k] =>
    destruct (count_tariff_channel o !! k) end.
  - intros s. apply same_registry_keeps, wrtite_tariff_TV_same_registry.
  - effect_split; apply effect_modify; intros s k Hk; cbn;
      first [ done
            | rewrite lookup_insert_is_Some;
              match goal with |- ?a = k \/ _ =>
                destruct (decide (a = k)); auto end ].
Qed.

End GrowthFacts.

(** X1: whatever page is processed from whatever state of the object, and
    whether the call returns or raises, the four lists only grow: what
    they held before is still there, at the front and in order. *)
Theorem lists_only_grow d o :
  extends o (snd (for_each process_table d o))
  /\ extends o (snd (DataRialcom_process_data d o)).
Proof.
  destruct (@process_data_effect extends extends_preorder d
              process_tariff_row_extends process_tariff_TV_row_extends)
    as [H1 H2].
  split; [apply H1|apply H2].
Qed.

(** X2: no call removes a key from the channel registry, returning or
    raising; it can only add keys or replace counts. *)
Theorem registry_keys_stay d o :
  keeps_keys o (snd (DataRialcom_process_data d o)).
Proof.
  refine (proj2 (@process_data_effect keeps_keys keeps_keys_preorder d _
                   process_tariff_TV_row_keeps_keys) o).
  intros r s. apply same_registry_keeps, process_tariff_row_same_registry.
Qed.

(** X3: a table that is not a bundle table (its heading has "тариф", or
    has neither "тариф" nor "Интернет") leaves the channel registry as
    it was, also when one of its rows raises. *)
Theorem other_tables_keep_registry r0 rows o :
  found lit_tariff (united r0) = true
  \/ found lit_internet (united r0) = false ->
  count_tariff_channel (snd (process_table (r0 :: rows) o))
  = count_tariff_channel o.
Proof.
  intros H. rewrite process_table_cons.
  destruct (found lit_tariff (united r0)).
  - apply (@effect_for_each _ same_registry same_registry_preorder),
      process_tariff_row_same_registry.
  - destruct H as [H|H]; [done|]. by rewrite H.
Qed.

Lemma other_tables_keep_registry_witness :
  count_tariff_channel
    (snd (process_table [hdr_plain; row_start; row_no_speed]
            (with_registry init {[ u "Комфорт" := 120 ]})))
  = {[ u "Комфорт" := 120 ]}.
Proof.
  apply (other_tables_keep_registry hdr_plain [row_start; row_no_speed]).
  left. vm_compute. reflexivity.
Defined.

(** ** How far a raise can leave the lists out of step *)

Section LandFacts.

Lemma lands_for_each {St X} (I E : St -> Prop) (body : X -> M St unit) xs :
  (forall x, lands I (body x) I E) -> lands I (for_each body xs) I E.
Proof.
  intros Hb. induction xs as [|x xs IH]; intros s Hs; [done|].
  cbn [for_each]. rewrite bind_run. specialize (Hb x s Hs).
  destruct (body x s) as [[e|[]] s1]; [done|]. by apply IH.
Qed.

Lemma balanced_one_partial o : balanced o -> one_partial o.
Proof. intros (H1 & H2 & H3). unfold one_partial. lia. Qed.

Ltac land_head :=
  rewrite bind_run;
  first [ rewrite first_token_run | rewrite index_run
        | rewrite search_digits_run | rewrite py_int_run
        | rewrite int_truediv_run ].

Ltac land_append :=
  rewrite bind_run;
  unfold names_append, channels_append, speeds_append, payments_append,
         count_tariff_channel_set, modify;
  cbn beta iota zeta.

Ltac out_of_step :=
  match goal with
  | H : balanced _ |- _ =>
    destruct H as (? & ? & ?); unfold one_partial, balanced; cbn;
    rewrite ?length_app; cbn; lia
  end.

Lemma process_tariff_row_lands r :
  lands balanced (process_tariff_row r) balanced one_partial.
Proof.
  intros s Hs. unfold process_tariff_row.
  land_head. destruct (td r !! 0%nat); cbn beta iota zeta; [|out_of_step].
  land_append. land_append.
  land_head. destruct (td r !! 3%nat); cbn beta iota zeta; [|out_of_step].
  land_head. destruct (first_digit_run _); cbn beta iota zeta; [|out_of_step].
  land_head. destruct (int_of_str _); cbn beta iota zeta; [|out_of_step..].
  land_head. destruct (speed_of _); cbn beta iota zeta; [|out_of_step].
  land_append.
  land_head. destruct (td r !! 1%nat); cbn beta iota zeta; [|out_of_step].
  land_head. destruct (first_token _); cbn beta iota zeta; [|out_of_step].
  land_head. destruct (int_of_str _); cbn beta iota zeta; [|out_of_step..].
  unfold payments_append, modify. out_of_step.
Qed.

Lemma wrtite_tariff_TV_lands heads columns channel is_tariff tariff :
  lands balanced (wrtite_tariff_TV heads columns channel is_tariff tariff)
        balanced one_partial.
Proof.
  apply lands_for_each. intros i s Hs. unfold wrtite_tariff_TV_col.
  land_head. destruct (heads !! i); cbn beta iota zeta; [|out_of_step].
  land_head. destruct (first_digit_run _); cbn beta iota zeta; [|out_of_step].
  land_head. destruct (int_of_str _); cbn beta iota zeta; [|out_of_step..].
  land_append. land_append. land_append.
  land_head. destruct (columns !! i); cbn beta iota zeta; [|out_of_step].
  land_head. destruct (int_of_str _); cbn beta iota zeta; [|out_of_step..].
  unfold payments_append, modify. out_of_step.
Qed.

Lemma process_tariff_TV_row_lands heads r :
  lands balanced (process_tariff_TV_row heads r) balanced one_partial.
Proof.
  intros s Hs. unfold process_tariff_TV_row.
  land_head. destruct (td r !! 0%nat) as [c0|]; cbn beta iota zeta;
    [|out_of_step].
  rewrite bind_run. unfold get. cbn beta iota zeta.
  destruct (count_tariff_channel s !! strip c0).
  { by apply wrtite_tariff_TV_lands. }
  rewrite bind_run. unfold search_groupdict.
  destruct (search pat_bundle (strip c0)) as [m|]; cbn [mret M_ret raise];
    [|out_of_step].
  rewrite bind_run. unfold group_item.
  destruct (lookup_group "name" (m_groupdict m)); cbn [mret M_ret raise];
    [|out_of_step].
  rewrite bind_run.
  destruct (lookup_group "num" (m_groupdict m)); cbn [mret M_ret raise];
    [|out_of_step].
  land_head. destruct (int_of_str _); cbn beta iota zeta; [|out_of_step..].
  land_append. by apply wrtite_tariff_TV_lands.
Qed.

Lemma process_table_lands t :
  lands balanced (process_table t) balanced one_partial.
Proof.
  destruct t as [|r0 rows]; intros s Hs.
  { cbn. by apply balanced_one_partial. }
  rewrite process_table_cons.
  destruct (found lit_tariff (united r0)).
  - apply lands_for_each; [|done]. apply process_tariff_row_lands.
  - destruct (found lit_internet (united r0)); [|done].
    apply lands_for_each; [|done]. apply process_tariff_TV_row_lands.
Qed.

End LandFacts.

(** X4: if the four lists have one length when [process_data] starts,
    they have one length when it returns; and when it raises, at most the
    last record is incomplete: names and channels have one length, and
    speeds and payments are that long or one shorter, payments never
    longer than speeds. *)
Theorem raise_leaves_one_partial d :
  lands balanced (DataRialcom_process_data d) balanced one_partial.
Proof.
  intros s Hs. rewrite DataRialcom_process_data_run.
  pose proof (lands_for_each balanced one_partial process_table d
                process_table_lands s Hs) as H.
  by destruct (for_each process_table d s) as [[e|[]] o].
Qed.

(** The payment "уточнить" under the second speed column: the row's
    first record is complete, its second lacks the payment. *)
Lemma raise_leaves_one_partial_witness :
  exists o,
    snd (DataRialcom_process_data page_ask_2 init) = o
    /\ one_partial o
    /\ length (names o) = 6%nat /\ length (payments o) = 5%nat.
Proof.
  eexists. split; [reflexivity|]. split; [|split; vm_compute; reflexivity].
  pose proof (raise_leaves_one_partial page_ask_2 init balanced_init) as H.
  assert (E : fst (DataRialcom_process_data page_ask_2 init)
              = inl (ValueError (InvalidLiteral (u "уточнить"))))
    by (vm_compute; reflexivity).
  destruct (DataRialcom_process_data page_ask_2 init) as [[e|out] o];
    [exact H|discriminate E].
Defined.

(** ** Tables that add nothing, cells that are not read *)

Section ReadFacts.

Lemma for_each_filter {St X} (body : X -> M St unit) (keep : X -> bool) xs s :
  (forall x s, keep x = false -> body x s = (inr tt, s)) ->
  for_each body (List.filter keep xs) s = for_each body xs s.
Proof.
  intros Hskip. revert s. induction xs as [|x xs IH]; intros s; [done|].
  cbn [List.filter for_each]. destruct (keep x) eqn:E.
  - cbn [for_each]. rewrite !bind_run.
    destruct (body x s) as [[e|[]] s1]; [done|]. apply IH.
  - rewrite bind_run, (Hskip x s E). apply IH.
Qed.

Lemma neutral_table t s : neutral t = true -> process_table t s = (inr tt, s).
Proof.
  destruct t as [|r0 rows]; [done|]. rewrite process_table_cons.
  destruct rows as [|r1 rows].
  - intros _. destruct (found lit_tariff (united r0)); [done|].
    by destruct (found lit_internet (united r0)).
  - cbn [neutral].
    destruct (found lit_tariff (united r0)); [done|].
    by destruct (found lit_internet (united r0)).
Qed.

Lemma for_each_pointwise {St X Y} (body : X -> M St unit)
    (body' : Y -> M St unit) xs ys s :
  Forall2 (fun x y => forall s, body x s = body' y s) xs ys ->
  for_each body xs s = for_each body' ys s.
Proof.
  intros H. revert s. induction H as [|x y xs ys Hxy _ IH]; intros s; [done|].
  cbn [for_each]. rewrite !bind_run, Hxy.
  destruct (body' y s) as [[e|[]] s1]; [done|]. apply IH.
Qed.

Lemma for_each_In_ext {St X} (body body' : X -> M St unit) xs s :
  (forall x s, In x xs -> body x s = body' x s) ->
  for_each body xs s = for_each body' xs s.
Proof.
  intros H. apply for_each_pointwise.
  induction xs as [|x xs IH]; constructor.
  - intros s'. apply H. by left.
  - apply IH. intros y s' Hy. apply H. by right.
Qed.

Lemma process_tariff_row_cells r r' s :
  same_plain_cells r r' -> process_tariff_row r s = process_tariff_row r' s.
Proof.
  intros (H0 & H1 & H3). unfold process_tariff_row, index. cbv zeta.
  by rewrite H0, H1, H3.
Qed.

Lemma wrtite_tariff_TV_cells heads columns columns' channel is_tariff tariff s :
  (forall i, (i < length heads)%nat -> columns !! i = columns' !! i) ->
  wrtite_tariff_TV heads columns channel is_tariff tariff s
  = wrtite_tariff_TV heads columns' channel is_tariff tariff s.
Proof.
  intros H. apply for_each_In_ext. intros i s' Hi.
  apply in_seq in Hi. unfold wrtite_tariff_TV_col, index. cbv zeta.
  by rewrite (H i) by lia.
Qed.

Lemma process_tariff_TV_row_cells heads r r' s :
  same_tv_cells heads r r' ->
  process_tariff_TV_row heads r s = process_tariff_TV_row heads r' s.
Proof.
  intros [H0 H]. unfold process_tariff_TV_row. cbv zeta.
  rewrite !bind_run, !index_run, H0.
  destruct (td r' !! 0%nat) as [c0|]; [|done]. cbn beta iota.
  rewrite !bind_run. unfold get. cbn beta iota.
  destruct (count_tariff_channel s !! strip c0).
  { by apply wrtite_tariff_TV_cells. }
  rewrite !bind_run.
  destruct (search_groupdict pat_bundle (strip c0) s) as [[e|d] s1]; [done|].
  rewrite !bind_run.
  destruct (group_item d "name" s1) as [[e|name] s2]; [done|].
  rewrite !bind_run.
  destruct (group_item d "num" s2) as [[e|digits] s3]; [done|].
  rewrite !bind_run.
  destruct (py_int digits s3) as [[e|num] s4]; [done|].
  rewrite !bind_run.
  destruct (count_tariff_channel_set name num s4) as [[e|[]] s5]; [done|].
  by apply wrtite_tariff_TV_cells.
Qed.

Lemma for_each_fmap {St X Y} (body : Y -> M St unit) (f : X -> Y) xs s :
  for_each body (f <$> xs) s = for_each (fun x => body (f x)) xs s.
Proof.
  revert s. induction xs as [|x xs IH]; intros s; [done|].
  cbn [fmap list_fmap for_each]. rewrite !bind_run.
  destruct (body (f x) s) as [[e|[]] s1]; [done|]. apply IH.
Qed.

End ReadFacts.

(** X5: tables that have only a header row, and tables whose heading has
    neither "тариф" nor "Интернет", can be deleted from a page: the
    object ends in the same state and the call returns or raises the
    same. Neither the cells of such a table nor its place matter. *)
Theorem neutral_tables_removable d o :
  for_each process_table (List.filter (fun t => negb (neutral t)) d) o
  = for_each process_table d o.
Proof.
  apply for_each_filter. intros t s Ht. apply neutral_table.
  by destruct (neutral t).
Qed.

(** X6: a plain-tariff row is read through its data cells 0, 1 and 3
    only: two rows that agree on these are processed alike from every
    state, whatever their cell 2, their further cells and their header
    cells are. *)
Theorem plain_row_reads_three_cells r r' o :
  same_plain_cells r r' -> process_tariff_row r o = process_tariff_row r' o.
Proof. apply process_tariff_row_cells. Qed.

Lemma plain_row_reads_three_cells_witness :
  process_tariff_row row_start init
  = process_tariff_row
      (data_row ["Старт"; "350 руб"; "в месяц"; "Скорость до 30 Мбит/с";
                 "акция"]%string) init.
Proof.
  apply (plain_row_reads_three_cells row_start).
  split; [reflexivity|]. split; reflexivity.
Defined.

(** X7: a bundle row is read through its data cell 0 and the data cells
    that stand under a header cell: two rows that agree on these are
    processed alike from every state. Cells beyond the last header cell
    are never read. *)
Theorem bundle_row_reads_headed_cells heads r r' o :
  same_tv_cells heads r r' ->
  process_tariff_TV_row heads r o = process_tariff_TV_row heads r' o.
Proof. apply process_tariff_TV_row_cells. Qed.

Lemma bundle_row_reads_headed_cells_witness :
  process_tariff_TV_row (th hdr_tv) row_comfort init
  = process_tariff_TV_row (th hdr_tv)
      (data_row ["Комфорт (120 каналов)"; "600"; "800"; "по запросу"]%string)
      init.
Proof.
  apply (bundle_row_reads_headed_cells (th hdr_tv) row_comfort).
  split; [reflexivity|]. intros [|[|[|i]]] Hi; try reflexivity.
  cbn in Hi. lia.
Defined.

(** X8: a table is read through the header cells of its first row and
    the data cells of its other rows: data cells in the first row and
    header cells in the other rows change nothing. *)
Theorem table_read_through_view t o :
  process_table (view t) o = process_table t o.
Proof.
  destruct t as [|r0 rows]; [done|].
  cbn [view]. rewrite !process_table_cons.
  change (united {| th := th r0; td := [] |}) with (united r0).
  destruct (found lit_tariff (united r0)).
  - unfold process_tariff. cbn [drop]. rewrite !drop_0. by rewrite for_each_fmap.
  - destruct (found lit_internet (united r0)); [|done].
    unfold process_tariff_TV. cbn [drop th]. rewrite !drop_0.
    by rewrite for_each_fmap.
Qed.

(** ** How many cells, how many records *)

Section CountFacts.

Lemma for_each_returns {St X} (body : X -> M St unit) xs s s' :
  for_each body xs s = (inr tt, s') ->
  Forall (fun x => exists s1 s2, body x s1 = (inr tt, s2)) xs.
Proof.
  revert s. induction xs as [|x xs IH]; intros s H; [constructor|].
  cbn [for_each] in H. rewrite bind_run in H.
  destruct (body x s) as [[e|[]] s1] eqn:E; [done|].
  constructor; [by eauto|by eapply IH].
Qed.

Lemma plain_row_cells r s s' :
  process_tariff_row r s = (inr tt, s') -> (4 <= length (td r))%nat.
Proof.
  intros (rec & Hrec & _)%process_tariff_row_ok.
  apply plain_row_record_fields in Hrec
    as (c0 & c1 & c3 & ds & n & token & _ & _ & E3 & _).
  apply lookup_lt_Some in E3. clear -E3. lia.
Qed.

Lemma tv_row_cells heads r s s' :
  process_tariff_TV_row heads r s = (inr tt, s') ->
  (Nat.max 1 (length heads) <= length (td r))%nat.
Proof.
  intros H. apply process_tariff_TV_row_ok in H
    as (c0 & ch & rep & reg' & recs & E0 & _ & Hrecs & _).
  apply lookup_lt_Some in E0.
  destruct (decide (length heads <= 1)%nat) as [Hn|Hn]; [clear -E0 Hn; lia|].
  assert (Hi : (1 <= length heads - 1 < length heads)%nat) by (clear -Hn; lia).
  destruct (tv_col_needed _ _ _ _ _ (length heads - 1) _ Hi Hrecs)
    as [rec Hrec].
  unfold tv_col_record in Hrec.
  destruct (heads !! _); [|done]. cbn [mbind option_bind] in Hrec.
  destruct (first_digit_run _); [|done]. cbn [mbind option_bind] in Hrec.
  destruct (parsed _); [|done]. cbn [mbind option_bind] in Hrec.
  destruct (td r !! (length heads - 1)%nat) eqn:E; [|done].
  apply lookup_lt_Some in E. clear -E E0. lia.
Qed.

Lemma grew_emit_all o recs : grew (length recs) o (emit_all o recs).
Proof.
  revert o. induction recs as [|rec recs IH]; intros o.
  - unfold grew. cbn. lia.
  - rewrite emit_all_cons. destruct (IH (emit o rec)) as (H1 & H2 & H3 & H4).
    unfold grew in *. cbn [length emit names channels speeds payments] in *.
    rewrite !length_app in *. cbn [length] in *. lia.
Qed.

Lemma grew_trans n m o1 o2 o3 :
  grew n o1 o2 -> grew m o2 o3 -> grew (n + m) o1 o3.
Proof. unfold grew. lia. Qed.

Lemma for_each_grew {X} (body : X -> M obj unit) k xs :
  (forall x s s', body x s = (inr tt, s') -> grew k s s') ->
  forall s s', for_each body xs s = (inr tt, s') ->
               grew (length xs * k) s s'.
Proof.
  intros Hb. induction xs as [|x xs IH]; intros s s' H.
  - injection H as <-. unfold grew. cbn. lia.
  - cbn [for_each] in H. rewrite bind_run in H.
    destruct (body x s) as [[e|[]] s1] eqn:E; [done|].
    cbn [length]. replace (S (length xs) * k)%nat
      with (k + length xs * k)%nat by lia.
    eapply grew_trans; [by apply (Hb x s s1)|by apply IH].
Qed.

Lemma process_table_grew t s s' :
  process_table t s = (inr tt, s') -> grew (table_records t) s s'.
Proof.
  destruct t as [|r0 rows]; [done|].
  rewrite process_table_cons. cbn [table_records].
  destruct (found lit_tariff (united r0)).
  - intros (recs & Hrecs & ->)%process_tariff_ok.
    cbn [drop] in Hrecs. rewrite drop_0 in Hrecs.
    rewrite <- (mapM_length _ _ _ Hrecs). apply grew_emit_all.
  - destruct (found lit_internet (united r0)).
    + unfold process_tariff_TV. cbn [drop]. rewrite drop_0.
      apply for_each_grew. intros r o o' H.
      apply process_tariff_TV_row_ok in H
        as (c0 & ch & rep & reg' & recs & _ & _ & Hrecs & ->).
      apply mapM_length in Hrecs. rewrite length_seq in Hrecs.
      rewrite <- Hrecs.
      apply (grew_emit_all (with_registry o reg')).
    + intros [= <-]. unfold grew. lia.
Qed.

Lemma process_tables_grew d s s' :
  for_each process_table d s = (inr tt, s') -> grew (page_records d) s s'.
Proof.
  revert s. induction d as [|t d IH]; intros s H.
  - injection H as <-. unfold grew. cbn. lia.
  - cbn [for_each] in H. rewrite bind_run in H.
    destruct (process_table t s) as [[e|[]] s1] eqn:E; [done|].
    cbn [page_records foldr].
    eapply grew_trans; [by apply (process_table_grew t s s1)|by apply IH].
Qed.

End CountFacts.

(** X9: a table is processed without error only if every data row has
    the cells that are read: at least four data cells in a plain-tariff
    table, and in a bundle table at least one and at least as many as
    the first row has header cells. A shorter row makes the call raise. *)
Theorem processed_rows_have_cells r0 rows o o' :
  process_table (r0 :: rows) o = (inr tt, o') ->
  (found lit_tariff (united r0) = true ->
   Forall (fun r => (4 <= length (td r))%nat) rows)
  /\ (found lit_tariff (united r0) = false ->
      found lit_internet (united r0) = true ->
      Forall (fun r => (Nat.max 1 (length (th r0)) <= length (td r))%nat) rows).
Proof.
  rewrite process_table_cons. intros H. split.
  - intros Hf. rewrite Hf in H. unfold process_tariff in H.
    cbn [drop] in H. rewrite drop_0 in H.
    apply for_each_returns in H. eapply Forall_impl; [exact H|].
    intros r (s1 & s2 & Hr). by eapply plain_row_cells.
  - intros Hf1 Hf2. rewrite Hf1, Hf2 in H. unfold process_tariff_TV in H.
    cbn [drop] in H. rewrite drop_0 in H.
    apply for_each_returns in H. eapply Forall_impl; [exact H|].
    intros r (s1 & s2 & Hr). by eapply tv_row_cells.
Qed.

Lemma processed_rows_have_cells_witness :
  Forall (fun r => (3 <= length (td r))%nat) [row_comfort; row_basic].
Proof.
  apply (proj2 (processed_rows_have_cells hdr_tv [row_comfort; row_basic]
                  init
                  (snd (process_table [hdr_tv; row_comfort; row_basic] init))
                  ltac:(vm_compute; reflexivity)));
    vm_compute; reflexivity.
Defined.

(** X10: a page that is processed without error adds to each of the four
    lists exactly one entry per data row of every plain-tariff table and
    one per data row and speed column (header cell after the first) of
    every bundle table; other tables add none. The number does not depend
    on the state of the object. *)
Theorem record_count d o o' :
  for_each process_table d o = (inr tt, o') -> grew (page_records d) o o'.
Proof. apply process_tables_grew. Qed.

Lemma record_count_witness :
  grew 3 init (snd (for_each process_table page_mixed init)).
Proof.
  apply (record_count page_mixed init). vm_compute. reflexivity.
Defined.

(** ** No negative speed, channel count or registered count *)

Section SignFacts.

Lemma round_half_even_nonneg a b :
  0 <= a -> 0 < b -> 0 <= round_half_even a b.
Proof.
  intros Ha Hb. unfold round_half_even.
  pose proof (Z.div_pos a b Ha Hb).
  destruct (2 * (a mod b) <? b); [done|].
  destruct (b <? 2 * (a mod b)); [lia|].
  destruct (Z.even (a / b)); lia.
Qed.

Lemma true_divide_pos_nonneg a b m e :
  0 <= a -> 0 < b -> true_divide_pos a b = Some (m, e) -> 0 <= m.
Proof.
  intros Ha Hb. unfold true_divide_pos.
  destruct (a =? 0); [by intros [= <- _]|].
  set (e0 := Z.max (log2_ratio a b - 52) (-1074)).
  destruct (Z.leb_spec 0 e0) as [He|He].
  - cbn [andb]. destruct (2 ^ 1024 <=? _); [done|]. intros [= <- _].
    apply round_half_even_nonneg; [done|].
    apply Z.mul_pos_pos; [done|]. by apply Z.pow_pos_nonneg.
  - cbn [andb]. intros [= <- _].
    apply round_half_even_nonneg; [|done].
    apply Z.mul_nonneg_nonneg; [done|]. apply Z.pow_nonneg. lia.
Qed.

Lemma speed_of_nonneg n v : 0 <= n -> speed_of n = Some v -> 0 <= v.
Proof.
  intros Hn. unfold speed_of, true_divide. rewrite Z.abs_eq by done.
  destruct (true_divide_pos n 1000) as [[m e]|] eqn:E; [|done].
  apply true_divide_pos_nonneg in E; [|done|lia].
  cbn [fmap option_fmap option_map int_of_float]. intros [= <-].
  assert (Hm : 0 <= Z.sgn n * m).
  { apply Z.mul_nonneg_nonneg; [|done]. by apply Z.sgn_nonneg. }
  destruct (Z.leb_spec 0 e) as [He|He].
  - apply Z.mul_nonneg_nonneg; [done|]. by apply Z.pow_nonneg.
  - apply Z.quot_pos; [done|]. apply Z.pow_pos_nonneg; lia.
Qed.

(** What [int] reads from a text that starts with a digit is not
    negative. *)
Lemma digit_head_nonneg d ds n :
  is_digit d = true -> int_of_str (d :: ds) = Parsed n -> 0 <= n.
Proof.
  intros Hd Hint. unfold int_of_str in Hint.
  destruct (int_trim_digit d ds Hd) as [r Hr]. rewrite Hr in Hint.
  assert (d <> 45 /\ d <> 43) as [H45 H43].
  { split; intros ->; by vm_compute in Hd. }
  rewrite (proj2 (Z.eqb_neq d 45) H45), (proj2 (Z.eqb_neq d 43) H43) in Hint.
  destruct (int_body (d :: r) false 0 0) as [[v nd]|] eqn:Eb; [|done].
  destruct (nd <=? int_max_str_digits)%nat; [|done].
  injection Hint as <-. by eapply int_body_nonneg; [|exact Eb].
Qed.

(** A named group holds a word of the pattern it encloses. *)
Lemma matches_groups name (P : text -> Prop) r :
  (forall r1 w, In (name, r1) (groups_in r) -> lang r1 w -> P w) ->
  forall s g s' g',
    In (s', g') (matches r s g) ->
    (forall w, lookup_group name g = Some w -> P w) ->
    forall w, lookup_group name g' = Some w -> P w.
Proof.
  induction r as [c|p|p|p|n r IH|r1 IH1 r2 IH2]; cbn [groups_in matches];
    intros Hr s g s' g' H Hg.
  - destruct s as [|x s]; [done|]. destruct (x =? c); [|done].
    by destruct H as [[= <- <-]|[]].
  - destruct s as [|x s]; [done|]. destruct (p x); [|done].
    by destruct H as [[= <- <-]|[]].
  - by apply in_map_iff in H as [t [[= <- <-] _]].
  - by apply in_map_iff in H as [t [[= <- <-] _]].
  - apply in_map_iff in H as [[t gt] [[= <- <-] Ht]].
    intros w. cbn [lookup_group].
    destruct (String.eqb_spec n name) as [->|Hn].
    + intros [= <-].
      destruct (matches_lang _ _ _ _ _ Ht) as [w0 [-> Hw0]].
      rewrite length_app, Nat.add_sub, take_app_length.
      apply (Hr r); [by left|done].
    + apply (IH (fun r1 w1 Hin => Hr r1 w1 (or_intror Hin)) _ _ _ _ Ht Hg).
  - apply in_flat_map in H as [[t gt] [Ht H]].
    apply (IH2 (fun r w1 Hin => Hr r w1 (proj2 (in_app_iff _ _ _) (or_intror Hin)))
             _ _ _ _ H).
    apply (IH1 (fun r w1 Hin => Hr r w1 (proj2 (in_app_iff _ _ _) (or_introl Hin)))
             _ _ _ _ Ht Hg).
Qed.

Lemma parse_bundle_num label name num :
  parse_bundle label = Some (name, num) -> 0 <= num.
Proof.
  unfold parse_bundle. rewrite search_bundle_start.
  destruct (matches pat_bundle label []) as [|[rest g] l] eqn:E; [done|].
  cbn [mbind option_bind m_groupdict].
  destruct (lookup_group "name" g); [|done]. cbn [mbind option_bind].
  destruct (lookup_group "num" g) as [ds|] eqn:Eds; [|done].
  cbn [mbind option_bind].
  destruct (int_of_str ds) as [n| |] eqn:En; [|done..].
  cbn [parsed mbind option_bind]. intros [= _ <-].
  assert (Hds : exists d ds', ds = d :: ds' /\ is_digit d = true).
  { apply (matches_groups "num"
             (fun w => exists d ds', w = d :: ds' /\ is_digit d = true)
             pat_bundle) with (s := label) (g := []) (s' := rest) (g' := g);
      [|rewrite E; by left|done|done].
    intros r1 w [[= <-]|[[= <-]|[]]] Hw.
    inversion Hw as [| | | | |? ? w1 w2 H1 H2]; subst.
    inversion H1; subst. cbn. eauto. }
  destruct Hds as (d & ds' & -> & Hd). by eapply digit_head_nonneg.
Qed.

Lemma resolve_counts reg label channel repeat reg' :
  (forall k v, reg !! k = Some v -> 0 <= v) ->
  resolve reg label = Some (channel, repeat, reg') ->
  0 <= channel /\ forall k v, reg' !! k = Some v -> 0 <= v.
Proof.
  intros Hreg. unfold resolve.
  destruct (reg !! label) as [c|] eqn:E.
  - intros [= <- _ <-]. split; [by eapply Hreg|done].
  - destruct (parse_bundle label) as [[name num]|] eqn:Ep; [|done].
    cbn [mbind option_bind]. intros [= <- _ <-].
    apply parse_bundle_num in Ep. split; [done|].
    intros k v. destruct (decide (k = name)) as [->|Hk].
    + rewrite lookup_insert_eq. by intros [= <-].
    + rewrite lookup_insert_ne by done. apply Hreg.
Qed.

Lemma counts_ok_emit o rec :
  counts_ok o -> 0 <= r_speed rec -> channel_ok (r_channels rec) ->
  counts_ok (emit o rec).
Proof.
  intros (Hs & Hc & Hr) Hsp Hch. unfold counts_ok, emit.
  cbn [speeds channels count_tariff_channel].
  split; [|split; [|done]]; apply Forall_app; split; try done;
    by apply Forall_singleton.
Qed.

Lemma counts_ok_emit_all o recs :
  counts_ok o ->
  Forall (fun rec => 0 <= r_speed rec /\ channel_ok (r_channels rec)) recs ->
  counts_ok (emit_all o recs).
Proof.
  intros Ho H. revert o Ho.
  induction H as [|rec recs [Hs Hc] _ IH]; intros o Ho; [done|].
  rewrite emit_all_cons. apply IH. by apply counts_ok_emit.
Qed.

Lemma plain_row_record_counts r rec :
  plain_row_record r = Some rec ->
  0 <= r_speed rec /\ channel_ok (r_channels rec).
Proof.
  intros H. apply plain_row_record_fields in H
    as (c0 & c1 & c3 & ds & n & token & _ & _ & _ & _ & Hc & Hds & Hn & Hsp & _).
  split; [|by left].
  eapply speed_of_nonneg; [|exact Hsp]. by eapply digit_run_nonneg.
Qed.

Lemma tv_col_record_counts heads columns channel repeat label i rec :
  0 <= channel ->
  tv_col_record heads columns channel repeat label i = Some rec ->
  0 <= r_speed rec /\ channel_ok (r_channels rec).
Proof.
  intros Hch. unfold tv_col_record. intros H.
  destruct (heads !! i); [|done]. cbn [mbind option_bind] in H.
  destruct (first_digit_run _) as [ds|] eqn:Eds; [|done].
  cbn [mbind option_bind] in H.
  destruct (int_of_str ds) as [n| |] eqn:En; [|done..].
  cbn [parsed mbind option_bind] in H.
  destruct (columns !! i); [|done]. cbn [mbind option_bind] in H.
  destruct (parsed _); [|done]. cbn [mbind option_bind] in H.
  injection H as <-. cbn [r_speed r_channels]. split.
  - by eapply digit_run_nonneg.
  - right. by eexists.
Qed.

Lemma process_table_counts t : preserves counts_ok (process_table t) counts_ok.
Proof.
  destruct t as [|r0 rows]; [by intros s a s' _ [=]|].
  intros s [] s' Hs. rewrite process_table_cons.
  destruct (found lit_tariff (united r0)).
  - intros (recs & Hrecs & ->)%process_tariff_ok.
    apply counts_ok_emit_all; [done|].
    eapply mapM_Forall; [|exact Hrecs]. apply plain_row_record_counts.
  - destruct (found lit_internet (united r0)); [|by intros [= <-]].
    unfold process_tariff_TV. intros H.
    eapply (for_each_preserves counts_ok); [|exact Hs|exact H].
    clear. intros r _ s [] s' Hs H.
    apply process_tariff_TV_row_ok in H
      as (c0 & ch & rep & reg' & recs & _ & Hres & Hrecs & ->).
    pose proof Hs as (Hs1 & Hs2 & Hs3).
    destruct (resolve_counts _ _ _ _ _ Hs3 Hres) as [Hch Hreg'].
    apply counts_ok_emit_all; [done|].
    eapply mapM_Forall; [|exact Hrecs].
    intros i rec. by apply tv_col_record_counts.
Qed.

End SignFacts.

(** X11: a page processed without error leaves no negative number where a
    count belongs: from a state whose speeds, channel counts and
    registered counts are not negative (the new object's empty lists are
    such a state), every speed is at least 0, every channel entry is
    'null' or an integer that is at least 0, and so is every registered
    count. Payments are not covered: a cell "-5" is read as -5. *)
Theorem counts_never_negative d o o' :
  counts_ok o -> for_each process_table d o = (inr tt, o') -> counts_ok o'.
Proof.
  intros Ho H. eapply (for_each_preserves counts_ok); [|exact Ho|exact H].
  intros t _. apply process_table_counts.
Qed.

Lemma counts_never_negative_witness :
  counts_ok (snd (for_each process_table page_mixed init)).
Proof.
  apply (counts_never_negative page_mixed init).
  - split; [constructor|split; [constructor|]].
    intros k v H. cbn in H. by rewrite lookup_empty in H.
  - vm_compute. reflexivity.
Defined.

(** ** More keys, still no error *)

Section LockstepFacts.

(** Two runs of a loop, kept in step by [R]. *)
Lemma for_each_lockstep {St X} (R : St -> St -> Prop) (body : X -> M St unit) xs :
  (forall x s1 s2 s1', R s1 s2 -> body x s1 = (inr tt, s1') ->
                       exists s2', body x s2 = (inr tt, s2') /\ R s1' s2') ->
  forall s1 s2 s1', R s1 s2 -> for_each body xs s1 = (inr tt, s1') ->
                    exists s2', for_each body xs s2 = (inr tt, s2') /\ R s1' s2'.
Proof.
  intros Hb. induction xs as [|x xs IH]; intros s1 s2 s1' HR H.
  - injection H as <-. by exists s2.
  - cbn [for_each] in *. rewrite bind_run in H.
    destruct (body x s1) as [[e|[]] t1] eqn:E; [done|].
    destruct (Hb _ _ _ _ HR E) as (t2 & E2 & HR2).
    destruct (IH _ _ _ HR2 H) as (s2' & H2 & HR').
    exists s2'. by rewrite bind_run, E2.
Qed.

(** Whether a speed column gives a record does not depend on the channel
    count or on the row being a repeat. *)
Lemma tv_col_record_any heads columns channel repeat channel' repeat' label i :
  is_Some (tv_col_record heads columns channel repeat label i) ->
  is_Some (tv_col_record heads columns channel' repeat' label i).
Proof.
  unfold tv_col_record. intros [rec H].
  destruct (heads !! i); [|done]. cbn [mbind option_bind] in *.
  destruct (first_digit_run _); [|done]. cbn [mbind option_bind] in *.
  destruct (parsed _); [|done]. cbn [mbind option_bind] in *.
  destruct (columns !! i); [|done]. cbn [mbind option_bind] in *.
  destruct (parsed _); [|done]. cbn [mbind option_bind] in *.
  by eexists.
Qed.

Lemma tv_records_any heads columns channel repeat channel' repeat' label l recs :
  mapM (tv_col_record heads columns channel repeat label) l = Some recs ->
  exists recs',
    mapM (tv_col_record heads columns channel' repeat' label) l = Some recs'.
Proof.
  intros H.
  assert (Hs : is_Some (mapM (tv_col_record heads columns channel repeat label) l))
    by by eexists.
  apply mapM_is_Some in Hs. apply mapM_is_Some.
  eapply Forall_impl; [exact Hs|].
  intros i. apply tv_col_record_any.
Qed.

Lemma process_tariff_row_lockstep r s1 s2 s1' :
  ahead s1 s2 -> process_tariff_row r s1 = (inr tt, s1') ->
  exists s2', process_tariff_row r s2 = (inr tt, s2') /\ ahead s1' s2'.
Proof.
  intros HR (rec & Hrec & ->)%process_tariff_row_ok.
  exists (emit s2 rec). split; [|done].
  apply process_tariff_row_ok. by exists rec.
Qed.

Lemma process_tariff_TV_row_lockstep heads r s1 s2 s1' :
  ahead s1 s2 -> process_tariff_TV_row heads r s1 = (inr tt, s1') ->
  exists s2', process_tariff_TV_row heads r s2 = (inr tt, s2') /\ ahead s1' s2'.
Proof.
  intros [Hk Hp] H.
  apply process_tariff_TV_row_ok in H
    as (c0 & ch & rep & reg' & recs & E0 & Hres & Hrecs & ->).
  assert (Hrun : forall s2',
            process_tariff_TV_row heads r s2 = (inr tt, s2') ->
            keeps_keys (emit_all (with_registry s1 reg') recs) s2' ->
            exists s2', process_tariff_TV_row heads r s2 = (inr tt, s2')
                        /\ ahead (emit_all (with_registry s1 reg') recs) s2').
  { intros s2' H2 Hk2. exists s2'. split; [done|]. split; [done|].
    by apply (process_tariff_TV_row_keys heads r s2 tt s2'). }
  unfold resolve in Hres.
  destruct (count_tariff_channel s1 !! strip c0) as [c|] eqn:E1.
  - injection Hres as <- <- <-.
    destruct (Hk (strip c0)) as [c2 E2]; [by rewrite E1|].
    destruct (tv_records_any _ _ _ _ c2 true _ _ _ Hrecs) as [recs' Hrecs'].
    apply (Hrun (emit_all (with_registry s2 (count_tariff_channel s2)) recs')).
    + apply process_tariff_TV_row_ok.
      exists c0, c2, true, (count_tariff_channel s2), recs'.
      unfold resolve. by rewrite E2.
    + intros k. rewrite !registry_emit_all. apply Hk.
  - destruct (parse_bundle (strip c0)) as [[name num]|] eqn:Ep; [|done].
    cbn [mbind option_bind] in Hres. injection Hres as <- <- <-.
    assert (E2 : count_tariff_channel s2 !! strip c0 = None).
    { destruct (count_tariff_channel s2 !! strip c0) as [v|] eqn:E; [|done].
      exfalso. apply (Hp _ _ E). apply search_bundle_iff.
      unfold parse_bundle in Ep.
      destruct (search pat_bundle (strip c0)); [by eexists|done]. }
    apply (Hrun (emit_all (with_registry s2
                   (<[name := num]> (count_tariff_channel s2))) recs)).
    + apply process_tariff_TV_row_ok.
      exists c0, num, false, (<[name := num]> (count_tariff_channel s2)), recs.
      unfold resolve. by rewrite E2, Ep.
    + intros k. rewrite !registry_emit_all.
      cbn [count_tariff_channel with_registry].
      rewrite !lookup_insert_is_Some.
      intros [->|[Hne Hs]]; [by left|]. right. split; [done|by apply Hk].
Qed.

Lemma process_table_lockstep t s1 s2 s1' :
  ahead s1 s2 -> process_table t s1 = (inr tt, s1') ->
  exists s2', process_table t s2 = (inr tt, s2') /\ ahead s1' s2'.
Proof.
  destruct t as [|r0 rows]; [done|]. rewrite !process_table_cons.
  destruct (found lit_tariff (united r0)).
  - apply for_each_lockstep. intros r. apply process_tariff_row_lockstep.
  - destruct (found lit_internet (united r0)).
    + apply for_each_lockstep. intros r. apply process_tariff_TV_row_lockstep.
    + intros HR [= <-]. by exists s2.
Qed.

Lemma process_tables_lockstep d s1 s2 s1' :
  ahead s1 s2 -> for_each process_table d s1 = (inr tt, s1') ->
  exists s2', for_each process_table d s2 = (inr tt, s2') /\ ahead s1' s2'.
Proof. apply for_each_lockstep. intros t. apply process_table_lockstep. Qed.

End LockstepFacts.

(** X12: whether a page is processed without error depends on the
    registry only through its keys, and more keys never hurt: if the page
    is processed without error from one state, it is processed without
    error from every state that has at least the same keys, none of them
    with a parenthesized digit group (as is the case for every registry
    the parser builds); the second run ends with at least the keys of the
    first. *)
Theorem more_keys_still_succeed d o1 o2 o1' :
  keeps_keys o1 o2 -> keys_plain o2 ->
  for_each process_table d o1 = (inr tt, o1') ->
  exists o2', for_each process_table d o2 = (inr tt, o2') /\ keeps_keys o1' o2'.
Proof.
  intros Hk Hp H.
  destruct (process_tables_lockstep d o1 o2 o1' (conj Hk Hp) H)
    as (o2' & H2 & Hk' & _).
  by exists o2'.
Qed.

Lemma more_keys_still_succeed_witness :
  exists o2',
    for_each process_table page_reuse
      (with_registry init {[ u "Комфорт" := 5 ]}) = (inr tt, o2')
    /\ keeps_keys (snd (for_each process_table page_reuse init)) o2'.
Proof.
  apply (more_keys_still_succeed page_reuse init).
  - intros k [v H]. cbn in H. by rewrite lookup_empty in H.
  - intros k v H. cbn in H. apply lookup_singleton_Some in H as [<- _].
    apply search_bundle_None. vm_compute. reflexivity.
  - vm_compute. reflexivity.
Defined.

(** X13: a [DataRialcom] object can be asked twice. If its first
    [process_data] returns, so does the second, and the object's four
    lists then hold what they held after the first call followed by as
    many entries again: the records of a page are added once per call. *)
Theorem second_call_appends d out p1 :
  DataRialcom_process_data_method (DataRialcom_init d) = (inr out, p1) ->
  exists out2 p2,
    DataRialcom_process_data_method p1 = (inr out2, p2)
    /\ out2 = output (attrs p2)
    /\ extends (attrs p1) (attrs p2)
    /\ grew (page_records d) init (attrs p1)
    /\ grew (page_records d) (attrs p1) (attrs p2).
Proof.
  unfold DataRialcom_process_data_method, on_attrs, DataRialcom_init.
  cbn [data attrs]. rewrite DataRialcom_process_data_run.
  destruct (for_each process_table d init) as [[e|[]] o1] eqn:E1; [done|].
  intros [= <- <-]. cbn [data attrs].
  rewrite DataRialcom_process_data_run.
  assert (Ha : ahead init o1).
  { split.
    - intros k [v H]. cbn in H. by rewrite lookup_empty in H.
    - eapply (for_each_preserves keys_plain); [|apply keys_plain_init|exact E1].
      intros t _. apply process_table_keys. }
  destruct (process_tables_lockstep d init o1 o1 Ha E1) as (o2 & E2 & _).
  rewrite E2. exists (output o2), {| data := d; attrs := o2 |}.
  cbn [attrs]. split; [done|]. split; [done|]. split; [|split].
  - pose proof (proj1 (@process_data_effect extends extends_preorder d
                         process_tariff_row_extends
                         process_tariff_TV_row_extends) o1) as Hx.
    by rewrite E2 in Hx.
  - by apply process_tables_grew.
  - by apply process_tables_grew.
Qed.

Lemma second_call_appends_witness :
  exists out2 p2,
    DataRialcom_process_data_method
      (snd (DataRialcom_process_data_method (DataRialcom_init page_reuse)))
    = (inr out2, p2)
    /\ length (names (attrs p2)) = 8%nat.
Proof.
  destruct (second_call_appends page_reuse
              (output (snd (for_each process_table page_reuse init)))
              (snd (DataRialcom_process_data_method (DataRialcom_init page_reuse)))
              ltac:(vm_compute; reflexivity))
    as (out2 & p2 & H & _ & _ & (H1 & _) & (H2 & _)).
  exists out2, p2. split; [exact H|].
  rewrite H2, H1. vm_compute. reflexivity.
Defined.

(** ** The program as a whole *)


(** X15: the sheet [save_data] writes has one row per data row of every
    plain-tariff table of the page and one per data row and speed column
    of every bundle table, and each row has four cells. *)
Theorem sheet_rows name p sheet p' :
  ParserRialcom_save_data name p = (inr sheet, p') ->
  length (xlsx_rows sheet) = page_records (data p)
  /\ Forall (fun cells => length cells = 4%nat) (xlsx_rows sheet).
Proof.
  intros H.
  destruct (for_each process_table (data p) init) as [[e|[]] o] eqn:E.
  - by rewrite save_data_run, E in H.
  - rewrite (save_data_ok _ _ o E) in H. injection H as <- _.
    cbn [xlsx_rows]. split.
    + rewrite length_fmap, records_length.
      * by destruct (process_tables_grew _ _ _ E) as (-> & _).
      * eapply process_tables_balanced; [apply balanced_init|exact E].
    + apply Forall_fmap, Forall_forall. by intros rec _.
Qed.

Lemma sheet_rows_witness :
  length (xlsx_rows
            {| xlsx_path := u "example.xlsx"; xlsx_header := headers;
               xlsx_rows := row_of <$> records
                 (snd (for_each process_table page_mixed init)) |}) = 3%nat.
Proof.
  apply (sheet_rows default_name (ParserRialcom_init page_mixed) _
           (ParserRialcom_init page_mixed)).
  vm_compute. reflexivity.
Defined.

(** ** Which exceptions there are *)

Section RaiseFacts.

Context {St : Type} (E : exn -> Prop).










End RaiseFacts.

Section ReadingErrors.










End ReadingErrors.



(** ** A digit run is a number *)

Section DigitRuns.

Lemma span_Forall (p : char -> bool) s :
  Forall (fun c => p c = true) (fst (span p s)).
Proof.
  induction s as [|c s IH]; cbn [span]; [constructor|].
  destruct (p c) eqn:E; [|constructor].
  destruct (span p s) as [a b]. cbn [fst] in *. by constructor.
Qed.

Lemma digit_run_digits s ds :
  first_digit_run s = Some ds ->
  ds <> [] /\ Forall (fun c => is_digit c = true) ds.
Proof.
  intros H. split.
  - by destruct (digit_run_head _ _ H) as (d & ds' & -> & _).
  - unfold first_digit_run in H.
    destruct (drop_while _ s) as [|c s1]; [done|]. injection H as <-.
    apply (span_Forall is_digit (c :: s1)).
Qed.

Lemma drop_int_space_digits l :
  Forall (fun c => is_digit c = true) l -> drop_while is_int_space l = l.
Proof.
  intros [|c l' Hc _]; [done|]. cbn [drop_while].
  by rewrite (digit_not_int_space c Hc).
Qed.

Lemma int_trim_digits ds :
  Forall (fun c => is_digit c = true) ds -> int_trim ds = ds.
Proof.
  intros H. unfold int_trim.
  rewrite (drop_int_space_digits ds H).
  rewrite drop_int_space_digits by by apply Forall_rev.
  apply rev_involutive.
Qed.

Lemma int_body_digits ds :
  Forall (fun c => is_digit c = true) ds ->
  forall prev acc nd,
    ds <> [] \/ prev = true ->
    int_body ds prev acc nd
    = Some (fold_left (fun a c => 10 * a + default 0 (decimal_value c)) ds acc,
            (nd + length ds)%nat).
Proof.
  induction 1 as [|c ds Hc _ IH]; intros prev acc nd Hne.
  - destruct Hne as [Hne|Hp]; [done|]. rewrite Hp. cbn. by rewrite Nat.add_0_r.
  - cbn [int_body fold_left length]. unfold is_digit in Hc.
    destruct (decimal_value c) as [d|]; [|done].
    rewrite IH by by right. cbn [default from_option].
    by rewrite Nat.add_succ_r.
Qed.

Lemma int_of_digits ds :
  ds <> [] -> Forall (fun c => is_digit c = true) ds ->
  int_of_str ds
  = if (length ds <=? int_max_str_digits)%nat
    then Parsed (digits_value ds) else TooLong (length ds).
Proof.
  intros Hne H. unfold int_of_str. rewrite (int_trim_digits ds H).
  destruct ds as [|d ds']; [done|].
  assert (Hd : is_digit d = true) by by inversion H.
  assert (d <> 45 /\ d <> 43) as [H45 H43].
  { split; intros ->; by vm_compute in Hd. }
  rewrite (proj2 (Z.eqb_neq d 45) H45), (proj2 (Z.eqb_neq d 43) H43).
  rewrite (int_body_digits (d :: ds') H false 0 0 (or_introl Hne)).
  by rewrite Nat.add_0_l.
Qed.

End DigitRuns.

(** X17: reading a speed, [int(re.search(r'\d+', text.strip()).group())]:
    without a digit in the text the search finds nothing and the call
    raises AttributeError; otherwise the first run of digits is taken and
    [int] always accepts it, whatever script the digits are written in,
    and gives the number they write; only a run of more than 4300 digits
    is refused, with the digit-limit ValueError. No text with a digit
    gives "invalid literal". *)
Theorem speed_digits_convert (t : text) (st : obj) :
  (digits ← search_group pat_digits (strip t); py_int digits) st
  = match first_digit_run t with
    | None => (inl (AttributeError "group"), st)
    | Some ds =>
      if (length ds <=? int_max_str_digits)%nat
      then (inr (digits_value ds), st)
      else (inl (ValueError (DigitLimit (length ds))), st)
    end.
Proof.
  rewrite bind_run, search_digits_run.
  destruct (first_digit_run t) as [ds|] eqn:E; [|done].
  destruct (digit_run_digits _ _ E) as [Hne Hds].
  rewrite py_int_run, (int_of_digits ds Hne Hds).
  by destruct (length ds <=? int_max_str_digits)%nat.
Qed.
